(** * An HTTP facade over one MinIO bucket

    Shallow embedding of the two programs of the repository:
    - [src/server/main.go]   (module [Server]): unbounded retry of the client
      construction, then at most ten bucket-existence checks;
    - [src/unnamed/part_000] (module [Part000]): unbounded retry of the client
      construction, then a single bucket-existence check.
    The three request handlers are textually the same in both files and are
    embedded once, in section [Handlers].

    The MinIO client library, [net/http], [io], [fmt], [log], [time] and
    [godotenv] are not part of the repository.  The storage backend is a
    parameter (record [Minio]); of the Go standard library only the documented
    behaviour that the programs rely on is written out. *)

From Stdlib Require Import ZArith String Strings.Byte List Lia Classical_Prop.
From stdpp Require Import gmap strings list fin_maps pretty.

Local Open Scope string_scope.
Local Open Scope Z_scope.
Local Open Scope list_scope.

(** ** Go values *)

(** An [error] is observed only through its [Error()] text ([%v]). *)
Definition error : Type := string.

(** [io.Reader]: the successive non-final results of [Read], then the final
    one, [None] for [io.EOF]. *)
Record Reader := {
  rd_chunks : list (list byte);
  rd_err : option error
}.

Definition rd_data (r : Reader) : list byte := concat (rd_chunks r).

(** A reader that delivers [c] in one piece and then [io.EOF]. *)
Definition whole (c : list byte) : Reader :=
  {| rd_chunks := [c]; rd_err := None |}.

(** The text ["\n"]. *)
Definition nl : string := String (Ascii.ascii_of_nat 10) EmptyString.

(** [time.Duration] counts nanoseconds. *)
Definition Second : Z := 1000000000.

(** ** net/http *)

Definition StatusOK : Z := 200.
Definition StatusBadRequest : Z := 400.
Definition StatusNotFound : Z := 404.
Definition StatusInternalServerError : Z := 500.

(** [http.Header] and [url.Values] are both [map[string][]string]. *)
Definition Header_Set (k v : string) (h : gmap string (list string))
  : gmap string (list string) := <[k := [v]]> h.

Definition Header_Del (k : string) (h : gmap string (list string))
  : gmap string (list string) := delete k h.

(** [url.Values.Get]: the first value of the key, [""] when there is none. *)
Definition Values_Get (v : gmap string (list string)) (k : string) : string :=
  match v !! k with
  | Some (x :: _) => x
  | _ => ""
  end.

Record Request := {
  Path : string;
  Query : gmap string (list string);
  Body : Reader
}.

(** The server side of one response.  [handlerHeader] is the map returned by
    [w.Header()]; [WriteHeader] sends the status line with a snapshot of that
    map, once.  The client connection is taken to stay open: [Write] does not
    fail. *)
Record response := {
  handlerHeader : gmap string (list string);
  wroteHeader : bool;
  status : Z;
  sentHeader : gmap string (list string);
  body : list byte
}.

Definition newResponse : response :=
  {| handlerHeader := ∅; wroteHeader := false; status := 0;
     sentHeader := ∅; body := [] |}.

Definition setHeader (k v : string) (w : response) : response :=
  {| handlerHeader := Header_Set k v (handlerHeader w);
     wroteHeader := wroteHeader w; status := status w;
     sentHeader := sentHeader w; body := body w |}.

Definition delHeader (k : string) (w : response) : response :=
  {| handlerHeader := Header_Del k (handlerHeader w);
     wroteHeader := wroteHeader w; status := status w;
     sentHeader := sentHeader w; body := body w |}.

(** A second [WriteHeader] is superfluous: it is reported on the server's log
    and changes nothing. *)
Definition WriteHeader (code : Z) (w : response) : response :=
  if wroteHeader w then w
  else {| handlerHeader := handlerHeader w; wroteHeader := true;
          status := code; sentHeader := handlerHeader w; body := body w |}.

(** The first [Write] without a [WriteHeader] sends [StatusOK]. *)
Definition Write (p : list byte) (w : response) : response :=
  let w' := if wroteHeader w then w else WriteHeader StatusOK w in
  {| handlerHeader := handlerHeader w'; wroteHeader := wroteHeader w';
     status := status w'; sentHeader := sentHeader w';
     body := body w' ++ p |}.

Definition Fprint (s : string) (w : response) : response :=
  Write (list_byte_of_string s) w.

(** [fmt.Fprintln(w, s)] *)
Definition Fprintln (s : string) (w : response) : response :=
  Fprint (s +:+ nl) w.

(** [http.Error(w, msg, code)] *)
Definition http_Error (msg : string) (code : Z) (w : response) : response :=
  Fprintln msg
    (WriteHeader code
       (setHeader "X-Content-Type-Options" "nosniff"
          (setHeader "Content-Type" "text/plain; charset=utf-8"
             (delHeader "Content-Length" w)))).

(** [io.Copy(w, src)]: every non-empty chunk read is written; the copy stops
    at the reader's final result, which is returned ([None] for [io.EOF]). *)
Fixpoint copy_chunks (cs : list (list byte)) (w : response) : response :=
  match cs with
  | [] => w
  | c :: cs' =>
      copy_chunks cs' (match c with [] => w | _ :: _ => Write c w end)
  end.

Definition io_Copy (w : response) (src : Reader) : response * option error :=
  (copy_chunks (rd_chunks src) w, rd_err src).

(** What the server does when the handler returns without having written. *)
Definition finishRequest (w : response) : response :=
  if wroteHeader w then w else WriteHeader StatusOK w.

(** ** The MinIO client *)

Record Credentials := {
  AccessKeyID : string;
  SecretAccessKey : string;
  SessionToken : string
}.

Definition NewStaticV4 (id secret token : string) : Credentials :=
  {| AccessKeyID := id; SecretAccessKey := secret; SessionToken := token |}.

Record Options := { Creds : Credentials; Secure : bool }.

Record Client := { cl_endpoint : string; cl_opts : Options }.

(** The two fields of [minio.ObjectInfo] that the programs read. *)
Record ObjectInfo := { Key : string; Err : option error }.

(** The calls the programs make on the library, over a state [W] of the
    outside world.  [BucketExists] and [GetObject] return their Go pair as a
    sum: the programs look at the value only when the error is [nil].
    [ListObjects] gives the finite contents of the channel it returns. *)
Record Minio (W : Type) := {
  New : string -> Options -> W -> option error * W;
  BucketExists : Client -> string -> W -> (error + bool) * W;
  MakeBucket : Client -> string -> W -> option error * W;
  PutObject :
    Client -> string -> string -> Reader -> Z -> W -> option error * W;
  GetObject : Client -> string -> string -> W -> (error + Reader) * W;
  ListObjects : Client -> string -> bool -> W -> list ObjectInfo * W
}.

Arguments New {W} _ _ _ _.
Arguments BucketExists {W} _ _ _ _.
Arguments MakeBucket {W} _ _ _ _.
Arguments PutObject {W} _ _ _ _ _ _ _.
Arguments GetObject {W} _ _ _ _ _.
Arguments ListObjects {W} _ _ _ _ _.

(** What a run does that is visible from outside the process, in order. *)
Inductive Event :=
| EvLog (msg : string)
| EvSleep (d : Z)
| EvNew (endpoint : string) (opts : Options) (res : option error)
| EvBucketExists (bucket : string) (res : error + bool)
| EvMakeBucket (bucket : string) (res : option error)
| EvPutObject (bucket key : string) (size : Z) (res : option error)
| EvGetObject (bucket key : string) (res : option error)
| EvListObjects (bucket : string) (recursive : bool)
| EvHandleFunc (pattern : string)
| EvListenAndServe (addr : string)
| EvExit (code : Z).

Definition is_backend_call (e : Event) : bool :=
  match e with
  | EvNew _ _ _ | EvBucketExists _ _ | EvMakeBucket _ _
  | EvPutObject _ _ _ _ | EvGetObject _ _ _ | EvListObjects _ _ => true
  | _ => false
  end.

(** The package-level variables. *)
Record Globals := {
  minioClient : option Client;
  bucketName : string
}.

(** ** The request handlers *)

Inductive Completion := Returned | Panicked.

(** One handler invocation: how it ended, the response as it stands, the
    outside world afterwards and the backend calls made. *)
Record Run (W : Type) := {
  completion : Completion;
  resp : response;
  world : W;
  calls : list Event
}.

Arguments completion {W} _.
Arguments resp {W} _.
Arguments world {W} _.
Arguments calls {W} _.

Section Handlers.
Context {W : Type}.
Variable minio : Minio W.

(** A method call through a nil [*minio.Client]. *)
Definition nil_dereference (w : response) (s : W) : Run W :=
  {| completion := Panicked; resp := w; world := s; calls := [] |}.

Definition uploadHandler (g : Globals) (w : response) (r : Request) (s : W)
  : Run W :=
  let objectName := Values_Get (Query r) "key" in
  if String.eqb objectName "" then
    {| completion := Returned;
       resp := http_Error "Missing 'key' query parameter" StatusBadRequest w;
       world := s; calls := [] |}
  else
    match minioClient g with
    | None => nil_dereference w s
    | Some c =>
        let '(err, s') :=
          PutObject minio c (bucketName g) objectName (Body r) (-1) s in
        let ev := EvPutObject (bucketName g) objectName (-1) err in
        match err with
        | Some e =>
            {| completion := Returned;
               resp := http_Error ("Upload failed: " +:+ e)
                         StatusInternalServerError w;
               world := s'; calls := [ev] |}
        | None =>
            {| completion := Returned;
               resp := Fprint ("Uploaded " +:+ objectName +:+
                               " successfully" +:+ nl) w;
               world := s'; calls := [ev] |}
        end
    end.

Definition downloadHandler (g : Globals) (w : response) (r : Request) (s : W)
  : Run W :=
  let objectName := Values_Get (Query r) "key" in
  if String.eqb objectName "" then
    {| completion := Returned;
       resp := http_Error "Missing 'key' query parameter" StatusBadRequest w;
       world := s; calls := [] |}
  else
    match minioClient g with
    | None => nil_dereference w s
    | Some c =>
        let '(res, s') := GetObject minio c (bucketName g) objectName s in
        match res with
        | inl e =>
            {| completion := Returned;
               resp := http_Error ("Download failed: " +:+ e)
                         StatusInternalServerError w;
               world := s';
               calls := [EvGetObject (bucketName g) objectName (Some e)] |}
        | inr object =>
            let w1 := setHeader "Content-Disposition" "inline" w in
            let w2 := WriteHeader StatusOK w1 in
            {| completion := Returned;
               resp := fst (io_Copy w2 object);
               world := s';
               calls := [EvGetObject (bucketName g) objectName None] |}
        end
    end.

(** The body of the [range] loop of [listHandler] over what the channel
    delivers. *)
Fixpoint listLoop (objs : list ObjectInfo) (w : response) : response :=
  match objs with
  | [] => w
  | obj :: rest =>
      match Err obj with
      | Some e => http_Error e StatusInternalServerError w
      | None => listLoop rest (Fprintln (Key obj) w)
      end
  end.

Definition listHandler (g : Globals) (w : response) (r : Request) (s : W)
  : Run W :=
  match minioClient g with
  | None => nil_dereference w s
  | Some c =>
      let '(objs, s') := ListObjects minio c (bucketName g) true s in
      {| completion := Returned;
         resp := listLoop objs w;
         world := s';
         calls := [EvListObjects (bucketName g) true] |}
  end.

(** The default [ServeMux] with the three patterns registered by [main]:
    a pattern without a trailing slash matches that path only, and a request
    with exactly that path is handed to its handler.  Any other request is
    answered by [net/http] without a call of the repository's code (a
    redirect to the cleaned path when the path is not clean,
    [http.NotFound] otherwise); of that answer only [http.NotFound] is
    written out here, and it stands for both: no statement below is about
    the response to a path that is not one of the three patterns. *)
Definition NotFound (w : response) (s : W) : Run W :=
  {| completion := Returned;
     resp := http_Error "404 page not found" StatusNotFound w;
     world := s; calls := [] |}.

Definition dispatch (g : Globals) (w : response) (r : Request) (s : W)
  : Run W :=
  if String.eqb (Path r) "/upload" then uploadHandler g w r s
  else if String.eqb (Path r) "/download" then downloadHandler g w r s
  else if String.eqb (Path r) "/list" then listHandler g w r s
  else NotFound w s.

(** One request served from a fresh response; a handler that returns has its
    response finished by the server. *)
Definition serveRequest (g : Globals) (r : Request) (s : W) : Run W :=
  let run := dispatch g newResponse r s in
  match completion run with
  | Returned =>
      {| completion := Returned; resp := finishRequest (resp run);
         world := world run; calls := calls run |}
  | Panicked => run
  end.

(** Requests served one after the other. *)
Fixpoint serveAll (g : Globals) (rs : list Request) (s : W)
  : list (Run W) :=
  match rs with
  | [] => []
  | r :: rest =>
      let run := serveRequest g r s in
      run :: serveAll g rest (world run)
  end.

End Handlers.

(** ** Start-up *)

(** What the process finds when it starts: its environment, what
    [godotenv.Load()] would read from the [.env] file (or its error), and
    whether the listener on [:8080] can be set up ([Some e]: it cannot, and
    [http.ListenAndServe] returns [e] at once). *)
Record Process := {
  environ : gmap string string;
  dotenv : error + gmap string string;
  listen : option error
}.

(** [os.Getenv]: the value, [""] when the variable is unset. *)
Definition Getenv (env : gmap string string) (k : string) : string :=
  default "" (env !! k).

(** [godotenv.Load()] adds the variables of the file that the environment
    does not have yet. *)
Definition godotenv_Load (p : Process) : option error * gmap string string :=
  match dotenv p with
  | inl e => (Some e, environ p)
  | inr file => (None, environ p ∪ file)
  end.

(** How far [main] got: [log.Fatal] ended the process, the listener is
    accepting connections, or the client construction is still being retried
    after the attempts the run was given. *)
Inductive Outcome :=
| Exited (code : Z)
| Serving (g : Globals)
| Retrying.

(** [log.Fatal] and [log.Fatalf]: the message, then [os.Exit(1)]. *)
Definition Fatal (msg : string) : list Event := [EvLog msg; EvExit 1].

Definition staticOptions (accessKey secretKey : string) : Options :=
  {| Creds := NewStaticV4 accessKey secretKey ""; Secure := false |}.

(** One failed attempt of the connection loop, as the trace shows it. *)
Definition connectRound (endpoint : string) (opts : Options) (e : error)
  : list Event :=
  [EvNew endpoint opts (Some e);
   EvLog ("Waiting for MinIO to be ready: " +:+ e);
   EvSleep (2 * Second)].

(** The registration of the handlers and the call of the listener, the same
    in both programs. *)
Definition serveEvents : list Event :=
  [EvHandleFunc "/upload"; EvHandleFunc "/download"; EvHandleFunc "/list";
   EvLog "Server running on :8080"; EvListenAndServe ":8080"].

Section Startup.
Context {W : Type}.
Variable minio : Minio W.

(** The [for { ... }] loop around [minio.New], run for at most [fuel]
    attempts.  [None]: all of them failed and the loop goes on. *)
Fixpoint connect (fuel : nat) (endpoint : string) (opts : Options) (s : W)
  : option Client * W * list Event :=
  match fuel with
  | O => (None, s, [])
  | S fuel' =>
      let '(err, s1) := New minio endpoint opts s in
      match err with
      | None =>
          (Some {| cl_endpoint := endpoint; cl_opts := opts |}, s1,
           [EvNew endpoint opts None])
      | Some e =>
          let '(c, s2, tr) := connect fuel' endpoint opts s1 in
          (c, s2, connectRound endpoint opts e ++ tr)
      end
  end.

(** [http.HandleFunc] three times, the log line and
    [log.Fatal(http.ListenAndServe(":8080", nil))]. *)
Definition listenAndServe (p : Process) (g : Globals)
  : Outcome * list Event :=
  match listen p with
  | Some e => (Exited 1, serveEvents ++ Fatal e)
  | None => (Serving g, serveEvents)
  end.

(** [MakeBucket] when the bucket is reported missing; [true] when start-up
    goes on. *)
Definition provision (c : Client) (bucket : string) (exists_ : bool) (s : W)
  : bool * W * list Event :=
  if exists_ then
    (true, s, [EvLog ("Bucket already exists: " +:+ bucket)])
  else
    let '(err, s1) := MakeBucket minio c bucket s in
    match err with
    | Some e =>
        (false, s1,
         EvMakeBucket bucket (Some e) :: Fatal ("MakeBucket error: " +:+ e))
    | None =>
        (true, s1,
         [EvMakeBucket bucket None; EvLog ("Created bucket: " +:+ bucket)])
    end.

End Startup.

(** *** [src/server/main.go] *)
Module Server.
Section Main.
Context {W : Type}.
Variable minio : Minio W.

Definition retryMessage (e : error) (i : Z) : string :=
  "BucketExists error: " +:+ e +:+ " (attempt " +:+ pretty (i + 1)
    +:+ "/10). Retrying in 2s...".

(** The loop [for i := 0; i < 10; i++] of lines 54-74, entered with [i] and
    [n] iterations left before the condition [i < 10] fails.  [true]: the
    loop was left and start-up goes on. *)
Fixpoint bucketLoop (n : nat) (i : Z) (c : Client) (bucket : string) (s : W)
  : bool * W * list Event :=
  match n with
  | O => (true, s, [])
  | S n' =>
      let '(res, s1) := BucketExists minio c bucket s in
      match res with
      | inr exists_ =>
          let '(ok, s2, tr) := provision minio c bucket exists_ s1 in
          (ok, s2, EvBucketExists bucket (inr exists_) :: tr)
      | inl e =>
          let round := [EvBucketExists bucket (inl e);
                        EvLog (retryMessage e i);
                        EvSleep (2 * Second)] in
          if i =? 9 then
            (false, s1,
             round ++
             Fatal ("Failed to connect to MinIO after 10 attempts: " +:+ e))
          else
            let '(ok, s2, tr) := bucketLoop n' (i + 1) c bucket s1 in
            (ok, s2, round ++ tr)
      end
  end.

Definition main (fuel : nat) (p : Process) (s : W)
  : Outcome * W * list Event :=
  let '(err, env) := godotenv_Load p in
  let tr0 := match err with
             | Some _ => [EvLog "No .env file found or failed to load it"]
             | None => []
             end in
  let endpoint := Getenv env "MINIO_ENDPOINT" in
  let accessKey := Getenv env "MINIO_ACCESS_KEY" in
  let secretKey := Getenv env "MINIO_SECRET_KEY" in
  let bucket := Getenv env "MINIO_BUCKET" in
  if String.eqb endpoint "" || String.eqb accessKey ""
     || String.eqb secretKey "" || String.eqb bucket "" then
    (Exited 1, s,
     tr0 ++ Fatal "One or more required environment variables are missing")
  else
    let '(client, s1, tr1) :=
      connect minio fuel endpoint (staticOptions accessKey secretKey) s in
    match client with
    | None => (Retrying, s1, tr0 ++ tr1)
    | Some c =>
        let '(ok, s2, tr2) := bucketLoop 10 0 c bucket s1 in
        let tr := tr0 ++ tr1 ++ [EvLog "Connected to MinIO"] ++ tr2 in
        if ok then
          let g := {| minioClient := Some c; bucketName := bucket |} in
          let '(out, tr3) := listenAndServe p g in
          (out, s2, tr ++ tr3)
        else (Exited 1, s2, tr)
    end.

(** The process as a whole: the requests are handled once [main] is
    serving, and not otherwise. *)
Definition process (fuel : nat) (p : Process) (rs : list Request) (s : W)
  : list Event * list (Run W) :=
  let '(out, s1, tr) := main fuel p s in
  match out with
  | Serving g => (tr, serveAll minio g rs s1)
  | _ => (tr, [])
  end.

End Main.
End Server.

(** *** [src/unnamed/part_000] *)
Module Part000.
Section Main.
Context {W : Type}.
Variable minio : Minio W.

(** [bucketName] is initialised from the environment before [main] runs. *)
Definition main (fuel : nat) (p : Process) (s : W)
  : Outcome * W * list Event :=
  let env := environ p in
  let bucket := Getenv env "MINIO_BUCKET" in
  let endpoint := Getenv env "MINIO_ENDPOINT" in
  let accessKey := Getenv env "MINIO_ACCESS_KEY" in
  let secretKey := Getenv env "MINIO_SECRET_KEY" in
  if String.eqb endpoint "" || String.eqb accessKey ""
     || String.eqb secretKey "" || String.eqb bucket "" then
    (Exited 1, s,
     Fatal "One or more required environment variables are missing")
  else
    let '(client, s1, tr1) :=
      connect minio fuel endpoint (staticOptions accessKey secretKey) s in
    match client with
    | None => (Retrying, s1, tr1)
    | Some c =>
        let '(res, s2) := BucketExists minio c bucket s1 in
        let tr := tr1 ++ [EvLog "Connected to MinIO"] in
        match res with
        | inl e =>
            (Exited 1, s2,
             tr ++ EvBucketExists bucket (inl e)
                :: Fatal ("BucketExists error: " +:+ e))
        | inr exists_ =>
            let '(ok, s3, tr2) := provision minio c bucket exists_ s2 in
            let tr' := tr ++ EvBucketExists bucket (inr exists_) :: tr2 in
            if ok then
              let g := {| minioClient := Some c; bucketName := bucket |} in
              let '(out, tr3) := listenAndServe p g in
              (out, s3, tr' ++ tr3)
            else (Exited 1, s3, tr')
        end
    end.

Definition process (fuel : nat) (p : Process) (rs : list Request) (s : W)
  : list Event * list (Run W) :=
  let '(out, s1, tr) := main fuel p s in
  match out with
  | Serving g => (tr, serveAll minio g rs s1)
  | _ => (tr, [])
  end.

End Main.
End Part000.

(** ** What a faithful store guarantees *)

(** The handlers forward to the backend; what a later download can return is
    the backend's business.  [content s b k] is the object stored under key
    [k] of bucket [b] in world [s].  A successful [PutObject] stores what the
    reader delivered; [GetObject] on a stored object hands out a stream of
    exactly its bytes and stores nothing. *)
Record StoreLaws {W : Type} (minio : Minio W)
    (content : W -> string -> string -> option (list byte)) : Prop := {
  put_stores : forall c b k r size s s',
    PutObject minio c b k r size s = (None, s') ->
    content s' b k = Some (rd_data r);
  get_reads : forall c b k s v,
    content s b k = Some v ->
    exists obj s',
      GetObject minio c b k s = (inr obj, s') /\
      rd_data obj = v /\ rd_err obj = None /\
      forall b' k', content s' b' k' = content s b' k'
}.

(** The [key] parameter is absent, or its first value is empty. *)
Definition key_missing (r : Request) : Prop :=
  Query r !! "key" = None \/
  Query r !! "key" = Some [] \/
  exists rest, Query r !! "key" = Some ("" :: rest).

(** A request for [path] with the single query parameter [key=k]. *)
Definition request (path k : string) (b : Reader) : Request :=
  {| Path := path; Query := {[ "key" := [k] ]}; Body := b |}.

(** ** Backends to run the programs on *)

(** An in-memory object store that answers as the MinIO client does.
    [minio.New] and [BucketExists] fail as many times as the world says
    before they work.  [PutObject] takes a body that breaks off with
    [io.ErrUnexpectedEOF] as ended and stores what was read; any other error
    of the body fails the call.  [GetObject] does not ask the service: it
    always hands out an object, and a missing key shows as the error of the
    first [Read]. *)
Module Mem.

Record World := {
  new_failures : nat;
  exists_failures : nat;
  buckets : gmap string (gmap string (list byte))
}.

Definition refused : error := "connection refused".

Definition content (s : World) (b k : string) : option (list byte) :=
  match buckets s !! b with
  | Some objs => objs !! k
  | None => None
  end.

Definition new (endpoint : string) (opts : Options) (s : World)
  : option error * World :=
  match new_failures s with
  | O => (None, s)
  | S n => (Some refused,
            {| new_failures := n; exists_failures := exists_failures s;
               buckets := buckets s |})
  end.

Definition bucketExists (c : Client) (b : string) (s : World)
  : (error + bool) * World :=
  match exists_failures s with
  | O => (inr (bool_decide (is_Some (buckets s !! b))), s)
  | S n => (inl refused,
            {| new_failures := new_failures s; exists_failures := n;
               buckets := buckets s |})
  end.

Definition makeBucket (c : Client) (b : string) (s : World)
  : option error * World :=
  match buckets s !! b with
  | Some _ => (Some "The bucket exists and you already own it.", s)
  | None => (None,
             {| new_failures := new_failures s;
                exists_failures := exists_failures s;
                buckets := <[b := ∅]> (buckets s) |})
  end.

(** The error of the body that fails the upload, if any. *)
Definition bodyFailure (r : Reader) : option error :=
  match rd_err r with
  | Some e => if String.eqb e "unexpected EOF" then None else Some e
  | None => None
  end.

Definition putObject (c : Client) (b k : string) (r : Reader) (size : Z)
    (s : World) : option error * World :=
  match bodyFailure r, buckets s !! b with
  | Some e, _ => (Some e, s)
  | None, None => (Some "The specified bucket does not exist", s)
  | None, Some objs =>
      (None,
       {| new_failures := new_failures s;
          exists_failures := exists_failures s;
          buckets := <[b := <[k := rd_data r]> objs]> (buckets s) |})
  end.

Definition getObject (c : Client) (b k : string) (s : World)
  : (error + Reader) * World :=
  match content s b k with
  | Some v => (inr (whole v), s)
  | None =>
      (inr {| rd_chunks := [];
              rd_err := Some "The specified key does not exist." |}, s)
  end.

Definition listObjects (c : Client) (b : string) (recursive : bool)
    (s : World) : list ObjectInfo * World :=
  match buckets s !! b with
  | Some objs =>
      (map (fun kv => {| Key := fst kv; Err := None |}) (map_to_list objs),
       s)
  | None =>
      ([{| Key := ""; Err := Some "The specified bucket does not exist" |}],
       s)
  end.

Definition minio : Minio World :=
  {| New := new; BucketExists := bucketExists; MakeBucket := makeBucket;
     PutObject := putObject; GetObject := getObject;
     ListObjects := listObjects |}.

(** A reachable service whose bucket [files] holds nothing yet. *)
Definition ready : World :=
  {| new_failures := 0; exists_failures := 0;
     buckets := {[ "files" := ∅ ]} |}.

(** A service that answers only after the given numbers of failures. *)
Definition slow (n m : nat) (bs : gmap string (gmap string (list byte)))
  : World :=
  {| new_failures := n; exists_failures := m; buckets := bs |}.

End Mem.

(** A backend that answers every call from a script; it is reachable and its
    bucket exists. *)
Module Scripted.

Record Script := {
  get_result : error + Reader;
  list_result : list ObjectInfo
}.

Definition minio (sc : Script) : Minio unit :=
  {| New := fun _ _ s => (None, s);
     BucketExists := fun _ _ s => (inr true, s);
     MakeBucket := fun _ _ s => (None, s);
     PutObject := fun _ _ _ _ _ s => (None, s);
     GetObject := fun _ _ _ s => (get_result sc, s);
     ListObjects := fun _ _ _ s => (list_result sc, s) |}.

End Scripted.

(** The globals and the process used in the examples. *)
Definition aClient : Client :=
  {| cl_endpoint := "minio:9000"; cl_opts := staticOptions "admin" "secret" |}.

Definition served : Globals :=
  {| minioClient := Some aClient; bucketName := "files" |}.

Definition aProcess : Process :=
  {| environ := {[ "MINIO_ENDPOINT" := "minio:9000";
                   "MINIO_ACCESS_KEY" := "admin";
                   "MINIO_SECRET_KEY" := "secret";
                   "MINIO_BUCKET" := "files" ]};
     dotenv := inl "open .env: no such file or directory";
     listen := None |}.

(** What [downloadHandler] leaves when [GetObject] gave an object: the header
    is sent with status 200 and the disposition, and only then the copy
    runs. *)
Definition committedInline : response :=
  WriteHeader StatusOK (setHeader "Content-Disposition" "inline" newResponse).

(** An object of four bytes whose stream breaks after the first two. *)
Definition brokenStream : Scripted.Script :=
  {| Scripted.get_result :=
       inr {| rd_chunks := [["a"%byte; "b"%byte]];
              rd_err := Some "unexpected EOF" |};
     Scripted.list_result := [] |}.

(** Binary content: the bytes 00, ff, 0a. *)
Definition someBytes : list byte := [x00; xff; x0a].

(** A listing that yields the key [a] and then fails. *)
Definition brokenListing : Scripted.Script :=
  {| Scripted.get_result := inl "unused";
     Scripted.list_result :=
       [{| Key := "a"; Err := None |};
        {| Key := ""; Err := Some "connection reset" |}] |}.

(** ** Vocabulary of the statements *)

(** The bytes of the given keys, one per line. *)
Definition lines (ks : list string) : list byte :=
  concat (map (fun k => list_byte_of_string (k +:+ nl)) ks).

(** The failed rounds of the bucket loop of [src/server/main.go] as the trace
    shows them, for the errors [es] met from iteration [i] on: the call, the
    log line, the sleep of two seconds. *)
Fixpoint retryRounds (bucket : string) (i : Z) (es : list error) : list Event :=
  match es with
  | [] => []
  | e :: es' =>
      [EvBucketExists bucket (inl e);
       EvLog (Server.retryMessage e i);
       EvSleep (2 * Second)] ++ retryRounds bucket (i + 1) es'
  end.

(** The errors of the failed bucket-existence checks of a trace, and all its
    checks. *)
Definition failedChecks (tr : list Event) : list error :=
  omap (fun ev => match ev with
                  | EvBucketExists _ (inl e) => Some e
                  | _ => None
                  end) tr.

Definition isCheck (ev : Event) : bool :=
  match ev with EvBucketExists _ _ => true | _ => false end.

Definition checks (tr : list Event) : list Event := List.filter isCheck tr.

Definition isMakeBucket (ev : Event) : bool :=
  match ev with EvMakeBucket _ _ => true | _ => false end.

Definition isExit (ev : Event) : bool :=
  match ev with EvExit _ => true | _ => false end.

Definition isListen (ev : Event) : bool :=
  match ev with EvListenAndServe _ => true | _ => false end.

(** The events of the connection loop are calls of [minio.New], log lines
    and sleeps. *)
Definition isConnectEvent (ev : Event) : bool :=
  match ev with
  | EvNew _ _ _ | EvLog _ | EvSleep _ => true
  | _ => false
  end.

(** No event of the trace satisfies [f]. *)
Definition none (f : Event -> bool) (tr : list Event) : Prop :=
  List.forallb (fun ev => negb (f ev)) tr = true.

(** The ways the bucket step ends once [BucketExists] has answered. *)
Inductive BucketEnd (bucket : string) : bool -> list Event -> Prop :=
| end_exists :
    BucketEnd bucket true
      [EvBucketExists bucket (inr true);
       EvLog ("Bucket already exists: " +:+ bucket)]
| end_created :
    BucketEnd bucket true
      [EvBucketExists bucket (inr false); EvMakeBucket bucket None;
       EvLog ("Created bucket: " +:+ bucket)]
| end_not_created (e : error) :
    BucketEnd bucket false
      (EvBucketExists bucket (inr false) :: EvMakeBucket bucket (Some e)
         :: Fatal ("MakeBucket error: " +:+ e)).

(** The bucket is known to exist: a check said so, or it was created. *)
Definition bucketConfirmed (bucket : string) (tr : list Event) : Prop :=
  In (EvBucketExists bucket (inr true)) tr \/
  In (EvMakeBucket bucket None) tr.

(** The runs of [main], in either program, as their traces read: the settings
    are missing; the client construction is still being retried; the bucket
    step ended the process; or the bucket step succeeded after fewer than ten
    failed checks and the listener was called. *)
Definition connecting (tr : list Event) : Prop :=
  forallb isConnectEvent tr = true.

Inductive Startup (p : Process) : Outcome -> list Event -> Prop :=
| startup_unconfigured (pre : list Event) :
    connecting pre ->
    Startup p (Exited 1)
      (pre ++ Fatal "One or more required environment variables are missing")
| startup_retrying (pre : list Event) :
    connecting pre ->
    Startup p Retrying pre
| startup_failed (pre mid : list Event) :
    connecting pre ->
    none isListen mid ->
    (forall b, ~ In (EvBucketExists b (inr true)) mid) ->
    Startup p (Exited 1) (pre ++ mid)
| startup_ready (pre : list Event) (es : list error) (post : list Event)
    (c : Client) (b : string) :
    connecting pre ->
    (length es < 10)%nat ->
    BucketEnd b true post ->
    Startup p
      (fst (listenAndServe p {| minioClient := Some c; bucketName := b |}))
      (pre ++ retryRounds b 0 es ++ post ++
       snd (listenAndServe p {| minioClient := Some c; bucketName := b |})).

(** ** The runs of [main], event by event *)

(** The settings that [main] reads. *)
Definition requiredVariables : list string :=
  ["MINIO_ENDPOINT"; "MINIO_ACCESS_KEY"; "MINIO_SECRET_KEY"; "MINIO_BUCKET"].

Definition endpointOf (env : gmap string string) : string :=
  Getenv env "MINIO_ENDPOINT".

Definition optionsOf (env : gmap string string) : Options :=
  staticOptions (Getenv env "MINIO_ACCESS_KEY") (Getenv env "MINIO_SECRET_KEY").

Definition bucketOf (env : gmap string string) : string :=
  Getenv env "MINIO_BUCKET".

Definition globalsOf (env : gmap string string) : Globals :=
  {| minioClient :=
       Some {| cl_endpoint := endpointOf env; cl_opts := optionsOf env |};
     bucketName := bucketOf env |}.

(** The log line of [src/server/main.go] for a [.env] file that did not
    load. *)
Definition dotenvLog (p : Process) : list Event :=
  match dotenv p with
  | inl _ => [EvLog "No .env file found or failed to load it"]
  | inr _ => []
  end.

(** The time slept in a trace, and its failed client constructions. *)
Definition slept (tr : list Event) : Z :=
  fold_right (fun ev acc => match ev with EvSleep d => d + acc | _ => acc end)
    0 tr.

Definition isFailedNew (ev : Event) : bool :=
  match ev with EvNew _ _ (Some _) => true | _ => false end.

Definition failedNews (tr : list Event) : list Event :=
  List.filter isFailedNew tr.

(** The bucket of a backend call on a bucket. *)
Definition eventBucket (ev : Event) : option string :=
  match ev with
  | EvBucketExists b _ | EvMakeBucket b _ | EvPutObject b _ _ _
  | EvGetObject b _ _ | EvListObjects b _ => Some b
  | _ => None
  end.

(** The bucket step of a connected run, whole.  With [bounded] (the loop of
    [src/server/main.go]): fewer than ten failed rounds and an answered
    check, or ten failed rounds and the fatal message.  Without (the single
    check of [src/unnamed/part_000]): an answered check, or a failed one and
    its fatal message. *)
Inductive BucketPhase (bounded : bool) (b : string)
  : bool -> list Event -> Prop :=
| phase_answered (es : list error) (ok : bool) (post : list Event) :
    (length es < 10)%nat ->
    (bounded = false -> es = []) ->
    BucketEnd b ok post ->
    BucketPhase bounded b ok (retryRounds b 0 es ++ post)
| phase_exhausted (es : list error) (e : error) :
    bounded = true ->
    length es = 10%nat ->
    last es = Some e ->
    BucketPhase bounded b false
      (retryRounds b 0 es ++
       Fatal ("Failed to connect to MinIO after 10 attempts: " +:+ e))
| phase_check_failed (e : error) :
    bounded = false ->
    BucketPhase bounded b false
      (EvBucketExists b (inl e) :: Fatal ("BucketExists error: " +:+ e)).

(** The runs of [main] with the settings [env], after the events [pre]: all
    their events, in order. *)
Inductive Execution (bounded : bool) (p : Process) (env : gmap string string)
    (pre : list Event) : Outcome -> list Event -> Prop :=
| exec_unconfigured :
    (exists k, In k requiredVariables /\ Getenv env k = "") ->
    Execution bounded p env pre (Exited 1)
      (pre ++ Fatal "One or more required environment variables are missing")
| exec_retrying (es : list error) :
    (forall k, In k requiredVariables -> Getenv env k <> "") ->
    Execution bounded p env pre Retrying
      (pre ++ flat_map (connectRound (endpointOf env) (optionsOf env)) es)
| exec_connected (es : list error) (ok : bool) (phase : list Event) :
    (forall k, In k requiredVariables -> Getenv env k <> "") ->
    BucketPhase bounded (bucketOf env) ok phase ->
    Execution bounded p env pre
      (if ok then fst (listenAndServe p (globalsOf env)) else Exited 1)
      (pre ++ flat_map (connectRound (endpointOf env) (optionsOf env)) es ++
       [EvNew (endpointOf env) (optionsOf env) None;
        EvLog "Connected to MinIO"] ++
       phase ++
       (if ok then snd (listenAndServe p (globalsOf env)) else [])).

(** The pieces that neither sleep nor fail. *)
Definition quiet (tr : list Event) : Prop :=
  slept tr = 0 /\ failedNews tr = [] /\ failedChecks tr = [] /\
  (forall ep o e, ~ In (EvNew ep o (Some e)) tr).

(** What a backend call made for the request [r] can be: the operation of
    the path, on the key of the request. *)
Definition callFor (r : Request) (ev : Event) : Prop :=
  match ev with
  | EvPutObject _ k size _ =>
      Path r = "/upload" /\ k = Values_Get (Query r) "key" /\ k <> "" /\
      size = -1
  | EvGetObject _ k _ =>
      Path r = "/download" /\ k = Values_Get (Query r) "key" /\ k <> ""
  | EvListObjects _ recursive => Path r = "/list" /\ recursive = true
  | _ => False
  end.

(** A client library that rejects the object name. *)
Definition rejectsName : Scripted.Script :=
  {| Scripted.get_result :=
       inl "Object name contains unsupported characters.";
     Scripted.list_result := [] |}.

(** A listing of two keys, and one that fails at once. *)
Definition twoKeys : Scripted.Script :=
  {| Scripted.get_result := inl "unused";
     Scripted.list_result :=
       [{| Key := "b/c"; Err := None |}; {| Key := "a"; Err := None |}] |}.

Definition failsAtOnce : Scripted.Script :=
  {| Scripted.get_result := inl "unused";
     Scripted.list_result :=
       [{| Key := ""; Err := Some "Access Denied." |};
        {| Key := "late"; Err := None |}] |}.

(** A process without the bucket setting, and one whose [.env] file is
    empty. *)
Definition noBucket : Process :=
  {| environ := {[ "MINIO_ENDPOINT" := "minio:9000";
                   "MINIO_ACCESS_KEY" := "admin";
                   "MINIO_SECRET_KEY" := "secret" ]};
     dotenv := inl "open .env: no such file or directory";
     listen := None |}.

Definition withEmptyDotenv (p : Process) : Process :=
  {| environ := environ p; dotenv := inr ∅; listen := listen p |}.

(** * Properties *)

(** ** The response writer *)

Lemma Values_Get_missing (r : Request) :
  key_missing r <-> Values_Get (Query r) "key" = "".
Proof.
  unfold key_missing, Values_Get. split.
  - intros [H | [H | [rest H]]]; rewrite H; reflexivity.
  - destruct (Query r !! "key") as [[| v rest] |] eqn:E; intros H.
    + right; left; reflexivity.
    + right; right; exists rest; congruence.
    + left; reflexivity.
Qed.

Lemma eqb_empty_false (k : string) : k <> "" -> String.eqb k "" = false.
Proof. intros H. apply String.eqb_neq. exact H. Qed.

Lemma Write_body (p : list byte) (w : response) :
  body (Write p w) = body w ++ p.
Proof. unfold Write, WriteHeader. destruct (wroteHeader w); reflexivity. Qed.

Lemma Write_wrote (p : list byte) (w : response) :
  wroteHeader (Write p w) = true.
Proof.
  unfold Write, WriteHeader. destruct (wroteHeader w) eqn:E; simpl; auto.
Qed.

Lemma Write_committed (p : list byte) (w : response) :
  wroteHeader w = true ->
  status (Write p w) = status w /\ sentHeader (Write p w) = sentHeader w.
Proof. intros H. unfold Write. rewrite H. simpl. auto. Qed.

Lemma Write_fresh (p : list byte) (w : response) :
  wroteHeader w = false ->
  status (Write p w) = StatusOK /\ sentHeader (Write p w) = handlerHeader w.
Proof. intros H. unfold Write, WriteHeader. rewrite H. simpl. auto. Qed.

Lemma http_Error_body (msg : string) (code : Z) (w : response) :
  body (http_Error msg code w) = body w ++ list_byte_of_string (msg +:+ nl).
Proof.
  unfold http_Error, Fprintln, Fprint. rewrite Write_body.
  unfold WriteHeader; simpl. destruct (wroteHeader w); reflexivity.
Qed.

Lemma http_Error_wrote (msg : string) (code : Z) (w : response) :
  wroteHeader (http_Error msg code w) = true.
Proof. unfold http_Error, Fprintln, Fprint. apply Write_wrote. Qed.

Lemma http_Error_fresh (msg : string) (code : Z) (w : response) :
  wroteHeader w = false -> status (http_Error msg code w) = code.
Proof.
  intros H. unfold http_Error, Fprintln, Fprint, Write, WriteHeader; simpl.
  rewrite H; simpl. reflexivity.
Qed.

(** Once the header is out, [http.Error] cannot change the status. *)
Lemma http_Error_committed (msg : string) (code : Z) (w : response) :
  wroteHeader w = true ->
  status (http_Error msg code w) = status w /\
  sentHeader (http_Error msg code w) = sentHeader w.
Proof.
  intros H. unfold http_Error, Fprintln, Fprint.
  assert (Hw : WriteHeader code
                 (setHeader "X-Content-Type-Options" "nosniff"
                    (setHeader "Content-Type" "text/plain; charset=utf-8"
                       (delHeader "Content-Length" w))) =
               setHeader "X-Content-Type-Options" "nosniff"
                 (setHeader "Content-Type" "text/plain; charset=utf-8"
                    (delHeader "Content-Length" w))).
  { unfold WriteHeader; simpl. rewrite H. reflexivity. }
  rewrite Hw.
  match goal with
  | |- status (Write ?p ?w') = _ /\ _ =>
      destruct (Write_committed p w' H) as [-> ->]
  end.
  split; reflexivity.
Qed.

Lemma copy_chunks_body (cs : list (list byte)) (w : response) :
  body (copy_chunks cs w) = body w ++ concat cs.
Proof.
  revert w. induction cs as [| c cs IH]; intros w; simpl.
  - rewrite app_nil_r. reflexivity.
  - rewrite IH. destruct c as [| x c]; [reflexivity |].
    rewrite Write_body, <- app_assoc. reflexivity.
Qed.

Lemma copy_chunks_committed (cs : list (list byte)) (w : response) :
  wroteHeader w = true ->
  wroteHeader (copy_chunks cs w) = true /\
  status (copy_chunks cs w) = status w /\
  sentHeader (copy_chunks cs w) = sentHeader w.
Proof.
  revert w. induction cs as [| c cs IH]; intros w H; simpl; [auto |].
  destruct c as [| x c]; [apply IH; exact H |].
  destruct (Write_committed (x :: c) w H) as [Hs Hh].
  destruct (IH (Write (x :: c) w) (Write_wrote _ _)) as (H1 & H2 & H3).
  rewrite H1, H2, H3, Hs, Hh. auto.
Qed.

Lemma finishRequest_wrote (w : response) :
  wroteHeader w = true -> finishRequest w = w.
Proof. intros H. unfold finishRequest. rewrite H. reflexivity. Qed.

(** ** Requests without a key *)

(** C1.  A request to [/upload] or [/download] whose [key] parameter is absent
    or empty is answered with status 400 and the missing-parameter text; the
    handler returns without a single call to the storage backend, and the
    outside world is as it was.  This holds whatever the globals are. *)
Theorem missing_key_bad_request {W : Type} (minio : Minio W) (g : Globals)
    (r : Request) (s : W) :
  Path r = "/upload" \/ Path r = "/download" ->
  key_missing r ->
  let run := serveRequest minio g r s in
  completion run = Returned /\
  status (resp run) = StatusBadRequest /\
  body (resp run) =
    list_byte_of_string ("Missing 'key' query parameter" +:+ nl) /\
  calls run = [] /\
  world run = s.
Proof.
  intros Hpath Hkey. apply Values_Get_missing in Hkey.
  assert (Hd : dispatch minio g newResponse r s =
               {| completion := Returned;
                  resp := http_Error "Missing 'key' query parameter"
                            StatusBadRequest newResponse;
                  world := s; calls := [] |}).
  { unfold dispatch, uploadHandler, downloadHandler.
    destruct Hpath as [-> | ->]; simpl; rewrite Hkey; reflexivity. }
  unfold serveRequest. rewrite Hd. cbn [completion resp world calls].
  rewrite finishRequest_wrote by apply http_Error_wrote.
  rewrite http_Error_fresh, http_Error_body by reflexivity.
  repeat split; reflexivity.
Qed.

Lemma missing_key_bad_request_witness :
  let r := {| Path := "/download"; Query := {[ "key" := [""; "x"] ]};
              Body := whole [] |} in
  let run := serveRequest Mem.minio served r Mem.ready in
  completion run = Returned /\
  status (resp run) = 400 /\
  body (resp run) =
    list_byte_of_string ("Missing 'key' query parameter" +:+ nl) /\
  calls run = [] /\
  world run = Mem.ready.
Proof.
  apply (missing_key_bad_request Mem.minio served
           {| Path := "/download"; Query := {[ "key" := [""; "x"] ]};
              Body := whole [] |} Mem.ready).
  - right. reflexivity.
  - right. right. exists ["x"]. reflexivity.
Defined.

(** ** Downloads *)

Lemma download_object {W : Type} (minio : Minio W) (g : Globals) (c : Client)
    (r : Request) (s s' : W) (obj : Reader) :
  Path r = "/download" ->
  minioClient g = Some c ->
  Values_Get (Query r) "key" <> "" ->
  GetObject minio c (bucketName g) (Values_Get (Query r) "key") s
    = (inr obj, s') ->
  serveRequest minio g r s =
    {| completion := Returned;
       resp := copy_chunks (rd_chunks obj) committedInline;
       world := s';
       calls := [EvGetObject (bucketName g) (Values_Get (Query r) "key")
                   None] |}.
Proof.
  intros Hpath Hc Hkey Hget.
  unfold serveRequest, dispatch, downloadHandler.
  rewrite Hpath; simpl. rewrite (eqb_empty_false _ Hkey), Hc, Hget.
  cbn [completion resp world calls io_Copy fst].
  rewrite finishRequest_wrote; [reflexivity |].
  apply copy_chunks_committed. reflexivity.
Qed.

Lemma committedInline_copy (cs : list (list byte)) :
  status (copy_chunks cs committedInline) = StatusOK /\
  sentHeader (copy_chunks cs committedInline) !! "Content-Disposition"
    = Some ["inline"] /\
  body (copy_chunks cs committedInline) = concat cs.
Proof.
  destruct (copy_chunks_committed cs committedInline eq_refl) as (_ & Hs & Hh).
  rewrite Hs, Hh, copy_chunks_body. repeat split; reflexivity.
Qed.

(** C3.  A download of a key that names no object: the client library
    hands out an object without asking the service, the handler sends the
    header with status 200, and the error of the first read, which says that
    the key does not exist, is dropped with the result of [io.Copy].  The
    response is 200 with an empty body, not a server error, and the cause is
    nowhere in it. *)
Theorem download_of_missing_key_is_200 :
  let run := serveRequest Mem.minio served
               (request "/download" "nope" (whole [])) Mem.ready in
  Mem.content Mem.ready "files" "nope" = None /\
  completion run = Returned /\
  calls run = [EvGetObject "files" "nope" None] /\
  status (resp run) = 200 /\
  ~ (500 <= status (resp run) < 600) /\
  body (resp run) = [].
Proof.
  vm_compute. repeat split; try reflexivity.
  intros [H _]. apply H. reflexivity.
Qed.

(** X14.  When [GetObject] itself returns an error for a non-empty key (the
    client library does so when it rejects the bucket or object name), the
    response to [/download] has status 500, which is not 404, and its body is
    the text [Download failed: ] followed by that error and a newline; the
    one [GetObject] call is the only backend call. *)
Theorem download_call_error_is_500 {W : Type} (minio : Minio W) (g : Globals)
    (c : Client) (r : Request) (s s' : W) (e : error) :
  Path r = "/download" ->
  minioClient g = Some c ->
  Values_Get (Query r) "key" <> "" ->
  GetObject minio c (bucketName g) (Values_Get (Query r) "key") s
    = (inl e, s') ->
  let run := serveRequest minio g r s in
  completion run = Returned /\
  world run = s' /\
  calls run =
    [EvGetObject (bucketName g) (Values_Get (Query r) "key") (Some e)] /\
  status (resp run) = StatusInternalServerError /\
  status (resp run) <> StatusNotFound /\
  body (resp run) = list_byte_of_string ("Download failed: " +:+ e +:+ nl).
Proof.
  intros Hpath Hc Hkey Hget.
  unfold serveRequest, dispatch, downloadHandler.
  rewrite Hpath; simpl. rewrite (eqb_empty_false _ Hkey), Hc, Hget.
  cbn [completion resp world calls].
  rewrite finishRequest_wrote by apply http_Error_wrote.
  rewrite http_Error_fresh, http_Error_body by reflexivity.
  unfold StatusInternalServerError, StatusNotFound.
  repeat split; try reflexivity; discriminate.
Qed.

Lemma download_call_error_is_500_witness :
  let run := serveRequest (Scripted.minio rejectsName) served
               (request "/download" "a" (whole [])) tt in
  completion run = Returned /\
  world run = tt /\
  calls run =
    [EvGetObject "files" "a"
       (Some "Object name contains unsupported characters.")] /\
  status (resp run) = 500 /\
  status (resp run) <> 404 /\
  body (resp run) =
    list_byte_of_string
      ("Download failed: Object name contains unsupported characters."
       +:+ nl).
Proof.
  apply (download_call_error_is_500 (Scripted.minio rejectsName) served
           aClient (request "/download" "a" (whole [])) tt tt
           "Object name contains unsupported characters.").
  - reflexivity.
  - reflexivity.
  - vm_compute. discriminate.
  - reflexivity.
Defined.

(** C10.  When [GetObject] gave an object for a non-empty key and the stream
    then fails during the copy, the response is still the one committed
    before the first byte was copied: status 200 with
    [Content-Disposition: inline] sent and an empty body, to which the copy
    has added the bytes that were read before the failure. *)
Theorem download_copy_failure_keeps_200 {W : Type} (minio : Minio W)
    (g : Globals) (c : Client) (r : Request) (s s' : W) (obj : Reader)
    (e : error) :
  Path r = "/download" ->
  minioClient g = Some c ->
  Values_Get (Query r) "key" <> "" ->
  GetObject minio c (bucketName g) (Values_Get (Query r) "key") s
    = (inr obj, s') ->
  rd_err obj = Some e ->
  let run := serveRequest minio g r s in
  (wroteHeader committedInline = true /\
   status committedInline = StatusOK /\
   sentHeader committedInline !! "Content-Disposition" = Some ["inline"] /\
   body committedInline = [] /\
   resp run = copy_chunks (rd_chunks obj) committedInline) /\
  completion run = Returned /\
  status (resp run) = StatusOK /\
  sentHeader (resp run) !! "Content-Disposition" = Some ["inline"] /\
  body (resp run) = rd_data obj.
Proof.
  intros Hpath Hc Hkey Hget _. cbv zeta.
  rewrite (download_object minio g c r s s' obj Hpath Hc Hkey Hget).
  cbn [completion resp].
  destruct (committedInline_copy (rd_chunks obj)) as (Hs & Hh & Hb).
  rewrite Hs, Hh, Hb. repeat split; reflexivity.
Qed.

Lemma download_copy_failure_keeps_200_witness :
  let run := serveRequest (Scripted.minio brokenStream) served
               (request "/download" "abcd" (whole [])) tt in
  status (resp run) = 200 /\
  sentHeader (resp run) !! "Content-Disposition" = Some ["inline"] /\
  body (resp run) = ["a"%byte; "b"%byte].
Proof.
  pose proof (download_copy_failure_keeps_200 (Scripted.minio brokenStream)
                served aClient (request "/download" "abcd" (whole [])) tt tt
                {| rd_chunks := [["a"%byte; "b"%byte]];
                   rd_err := Some "unexpected EOF" |}
                "unexpected EOF") as H.
  cbv zeta in H.
  destruct H as (_ & _ & Hs & Hh & Hb).
  - reflexivity.
  - reflexivity.
  - vm_compute. discriminate.
  - reflexivity.
  - reflexivity.
  - split; [exact Hs | split; [exact Hh | exact Hb]].
Defined.

(** ** Uploads followed by downloads *)

Section Store.
Context {W : Type}.
Variable minio : Minio W.
Variable content : W -> string -> string -> option (list byte).
Hypothesis laws : StoreLaws minio content.

Variables (g : Globals) (c : Client).
Hypothesis client : minioClient g = Some c.

(** An upload answered with 200 has stored the body under its key. *)
Lemma upload_stores (up : Request) (s : W) :
  Path up = "/upload" ->
  Values_Get (Query up) "key" <> "" ->
  status (resp (serveRequest minio g up s)) = StatusOK ->
  content (world (serveRequest minio g up s)) (bucketName g)
    (Values_Get (Query up) "key") = Some (rd_data (Body up)).
Proof.
  intros Hpath Hkey.
  unfold serveRequest, dispatch, uploadHandler.
  rewrite Hpath; simpl. rewrite (eqb_empty_false _ Hkey), client.
  destruct (PutObject minio c (bucketName g) (Values_Get (Query up) "key")
              (Body up) (-1) s) as [[e |] s1] eqn:Hput;
    cbn [completion resp world calls].
  - rewrite finishRequest_wrote by apply http_Error_wrote.
    rewrite http_Error_fresh by reflexivity. discriminate.
  - intros _. eapply put_stores; eauto.
Qed.

(** A download of a stored object returns its bytes and stores nothing. *)
Lemma download_stored (dn : Request) (s : W) (v : list byte) :
  Path dn = "/download" ->
  Values_Get (Query dn) "key" <> "" ->
  content s (bucketName g) (Values_Get (Query dn) "key") = Some v ->
  let d := serveRequest minio g dn s in
  completion d = Returned /\
  status (resp d) = StatusOK /\
  body (resp d) = v /\
  forall b k, content (world d) b k = content s b k.
Proof.
  intros Hpath Hkey Hv.
  destruct (get_reads minio content laws c _ _ _ _ Hv)
    as (obj & s' & Hget & Hdata & _ & Hsame).
  cbv zeta.
  rewrite (download_object minio g c dn s s' obj Hpath client Hkey Hget).
  cbn [completion resp world].
  destruct (committedInline_copy (rd_chunks obj)) as (Hs & _ & Hb).
  rewrite Hs, Hb. repeat split; auto.
Qed.

Lemma downloads_stored (dn : Request) (v : list byte) (n : nat) :
  Path dn = "/download" ->
  Values_Get (Query dn) "key" <> "" ->
  forall s,
    content s (bucketName g) (Values_Get (Query dn) "key") = Some v ->
    Forall (fun d => status (resp d) = StatusOK /\ body (resp d) = v)
           (serveAll minio g (replicate n dn) s).
Proof.
  intros Hpath Hkey. induction n as [| n IH]; intros s Hv; simpl.
  - constructor.
  - destruct (download_stored dn s v Hpath Hkey Hv) as (_ & Hs & Hb & Hsame).
    constructor; [split; assumption |].
    apply IH. rewrite Hsame. exact Hv.
Qed.

End Store.

Lemma Mem_laws : StoreLaws Mem.minio Mem.content.
Proof.
  split.
  - intros c b k r size s s'. simpl. unfold Mem.putObject, Mem.content.
    destruct (Mem.bodyFailure r); [discriminate |].
    destruct (Mem.buckets s !! b) as [objs |] eqn:Hb; [| discriminate].
    intros H; injection H as <-. simpl.
    rewrite lookup_insert_eq. apply lookup_insert_eq.
  - intros c b k s v Hv. exists (whole v), s. simpl. unfold Mem.getObject.
    rewrite Hv. unfold rd_data, whole; simpl. rewrite app_nil_r. auto.
Qed.

(** C2.  With a backend that stores what it accepts, for every non-empty key
    [K] and every content [C] (the empty one included): when the upload of
    [C] under [K] is answered with 200, the download of [K] that follows is
    answered with 200 and its body is exactly [C]. *)
Theorem upload_download_roundtrip {W : Type} (minio : Minio W)
    (content : W -> string -> string -> option (list byte))
    (g : Globals) (c : Client) (K : string) (C : list byte)
    (up dn : Request) (s : W) :
  StoreLaws minio content ->
  minioClient g = Some c ->
  K <> "" ->
  Path up = "/upload" -> Values_Get (Query up) "key" = K ->
  rd_data (Body up) = C ->
  Path dn = "/download" -> Values_Get (Query dn) "key" = K ->
  let u := serveRequest minio g up s in
  status (resp u) = StatusOK ->
  let d := serveRequest minio g dn (world u) in
  completion d = Returned /\ status (resp d) = StatusOK /\ body (resp d) = C.
Proof.
  intros L Hc HK Hup Hku HC Hdn Hkd u Hok d. subst C.
  assert (HKu : Values_Get (Query up) "key" <> "") by (rewrite Hku; exact HK).
  assert (HKd : Values_Get (Query dn) "key" <> "") by (rewrite Hkd; exact HK).
  assert (Hst : content (world u) (bucketName g) (Values_Get (Query dn) "key")
                = Some (rd_data (Body up))).
  { rewrite Hkd, <- Hku.
    exact (upload_stores minio content L g c Hc up s Hup HKu Hok). }
  destruct (download_stored minio content L g c Hc dn (world u) _ Hdn HKd Hst)
    as (H1 & H2 & H3 & _).
  auto.
Qed.

Lemma upload_download_roundtrip_witness :
  let u := serveRequest Mem.minio served
             (request "/upload" "a/b.bin" (whole someBytes)) Mem.ready in
  let d := serveRequest Mem.minio served
             (request "/download" "a/b.bin" (whole [])) (world u) in
  completion d = Returned /\ status (resp d) = 200 /\
  body (resp d) = someBytes.
Proof.
  apply (upload_download_roundtrip Mem.minio Mem.content served aClient
           "a/b.bin" someBytes
           (request "/upload" "a/b.bin" (whole someBytes))
           (request "/download" "a/b.bin" (whole [])) Mem.ready).
  - exact Mem_laws.
  - reflexivity.
  - discriminate.
  - reflexivity.
  - vm_compute. reflexivity.
  - reflexivity.
  - reflexivity.
  - vm_compute. reflexivity.
  - vm_compute. reflexivity.
Defined.

(** The empty content makes the same trip. *)
Example roundtrip_empty :
  let u := serveRequest Mem.minio served
             (request "/upload" "empty" (whole [])) Mem.ready in
  let d := serveRequest Mem.minio served
             (request "/download" "empty" (whole [])) (world u) in
  status (resp u) = 200 /\ status (resp d) = 200 /\ body (resp d) = [].
Proof. vm_compute. auto. Qed.

(** C9.  With a backend that stores what it accepts, for every non-empty key
    [K] and contents [C1], [C2]: when the upload of [C1] under [K] and then
    the upload of [C2] under [K] are both answered with 200, each of the
    downloads of [K] that follow, however many, is answered with 200 and the
    body [C2], with nothing of [C1] in it. *)
Theorem last_write_wins {W : Type} (minio : Minio W)
    (content : W -> string -> string -> option (list byte))
    (g : Globals) (c : Client) (K : string) (C1 C2 : list byte)
    (up1 up2 dn : Request) (s : W) (n : nat) :
  StoreLaws minio content ->
  minioClient g = Some c ->
  K <> "" ->
  Path up1 = "/upload" -> Values_Get (Query up1) "key" = K ->
  rd_data (Body up1) = C1 ->
  Path up2 = "/upload" -> Values_Get (Query up2) "key" = K ->
  rd_data (Body up2) = C2 ->
  Path dn = "/download" -> Values_Get (Query dn) "key" = K ->
  let u1 := serveRequest minio g up1 s in
  status (resp u1) = StatusOK ->
  let u2 := serveRequest minio g up2 (world u1) in
  status (resp u2) = StatusOK ->
  Forall (fun d => status (resp d) = StatusOK /\ body (resp d) = C2)
         (serveAll minio g (replicate n dn) (world u2)).
Proof.
  intros L Hc HK Hp1 Hk1 HC1 Hp2 Hk2 HC2 Hdn Hkd u1 Hok1 u2 Hok2.
  subst C1 C2.
  assert (HKd : Values_Get (Query dn) "key" <> "") by (rewrite Hkd; exact HK).
  apply (downloads_stored minio content L g c Hc dn _ n Hdn HKd).
  rewrite Hkd, <- Hk2.
  apply (upload_stores minio content L g c Hc up2 (world u1) Hp2);
    [rewrite Hk2; exact HK | exact Hok2].
Qed.

Lemma last_write_wins_witness :
  let u1 := serveRequest Mem.minio served
              (request "/upload" "k" (whole [x01; x02])) Mem.ready in
  let u2 := serveRequest Mem.minio served
              (request "/upload" "k" (whole [x03])) (world u1) in
  Forall (fun d => status (resp d) = 200 /\ body (resp d) = [x03])
         (serveAll Mem.minio served
            (replicate 3 (request "/download" "k" (whole []))) (world u2)).
Proof.
  apply (last_write_wins Mem.minio Mem.content served aClient "k"
           [x01; x02] [x03]
           (request "/upload" "k" (whole [x01; x02]))
           (request "/upload" "k" (whole [x03]))
           (request "/download" "k" (whole [])) Mem.ready 3).
  - exact Mem_laws.
  - reflexivity.
  - discriminate.
  - reflexivity.
  - vm_compute. reflexivity.
  - reflexivity.
  - reflexivity.
  - vm_compute. reflexivity.
  - reflexivity.
  - reflexivity.
  - vm_compute. reflexivity.
  - vm_compute. reflexivity.
  - vm_compute. reflexivity.
Defined.

(** ** Listings *)

Lemma Fprintln_body (k : string) (w : response) :
  body (Fprintln k w) = body w ++ list_byte_of_string (k +:+ nl).
Proof. unfold Fprintln, Fprint. apply Write_body. Qed.

Lemma Fprintln_wrote (k : string) (w : response) :
  wroteHeader (Fprintln k w) = true.
Proof. unfold Fprintln, Fprint. apply Write_wrote. Qed.

Lemma Fprintln_status (k : string) (w : response) :
  status (Fprintln k w) = if wroteHeader w then status w else StatusOK.
Proof.
  unfold Fprintln, Fprint. destruct (wroteHeader w) eqn:E.
  - apply Write_committed. exact E.
  - apply Write_fresh. exact E.
Qed.

(** A listing without errors writes its keys in order, one per line. *)
Lemma listLoop_keys (objs : list ObjectInfo) (w : response) :
  Forall (fun o => Err o = None) objs ->
  body (listLoop objs w) = body w ++ lines (map Key objs) /\
  (objs <> [] -> wroteHeader (listLoop objs w) = true) /\
  (wroteHeader w = true -> wroteHeader (listLoop objs w) = true) /\
  (wroteHeader w = false -> objs = [] -> listLoop objs w = w) /\
  status (listLoop objs w) =
    (if wroteHeader w then status w
     else match objs with [] => status w | _ :: _ => StatusOK end).
Proof.
  intros Hok. revert w. induction Hok as [| o objs Ho Hok IH]; intros w.
  - simpl. unfold lines; simpl. rewrite app_nil_r.
    repeat split; auto; try congruence. destruct (wroteHeader w); reflexivity.
  - simpl. rewrite Ho.
    destruct (IH (Fprintln (Key o) w)) as (Hb & _ & Hw & _ & Hs).
    rewrite Fprintln_wrote in Hs.
    rewrite Hb, Hs, Fprintln_body, Fprintln_status. unfold lines; simpl.
    fold (lines (map Key objs)). rewrite <- app_assoc.
    repeat split; auto; try discriminate.
    + intros _. apply Hw, Fprintln_wrote.
    + intros _. apply Hw, Fprintln_wrote.
Qed.

(** A listing that fails after the keys of [pre]: the loop stops in
    [http.Error] on the response written so far. *)
Lemma listLoop_error (pre post : list ObjectInfo) (o : ObjectInfo) (e : error)
    (w : response) :
  Forall (fun o => Err o = None) pre ->
  Err o = Some e ->
  listLoop (pre ++ o :: post) w =
    http_Error e StatusInternalServerError (listLoop pre w).
Proof.
  intros Hok He. revert w. induction Hok as [| p pre Hp Hok IH]; intros w.
  - simpl. rewrite He. reflexivity.
  - simpl. rewrite Hp. apply IH.
Qed.

(** The response to [/list] when the listing fails after [k] keys: the [k]
    lines and the error text are in the body; the status is 500 only when
    nothing had been written ([k = 0]), and the 200 sent with the first line
    otherwise. *)
Lemma list_error_after_keys {W : Type} (minio : Minio W) (g : Globals)
    (c : Client) (r : Request) (s s' : W) (pre post : list ObjectInfo)
    (o : ObjectInfo) (e : error) :
  Path r = "/list" ->
  minioClient g = Some c ->
  ListObjects minio c (bucketName g) true s = (pre ++ o :: post, s') ->
  Forall (fun o => Err o = None) pre ->
  Err o = Some e ->
  let run := serveRequest minio g r s in
  completion run = Returned /\
  body (resp run) = lines (map Key pre) ++ list_byte_of_string (e +:+ nl) /\
  status (resp run) =
    match pre with
    | [] => StatusInternalServerError
    | _ :: _ => StatusOK
    end.
Proof.
  intros Hpath Hc Hl Hok He.
  unfold serveRequest, dispatch, listHandler.
  rewrite Hpath; simpl. rewrite Hc, Hl. cbn [completion resp world calls].
  rewrite (listLoop_error pre post o e newResponse Hok He).
  rewrite (finishRequest_wrote (http_Error e _ _) (http_Error_wrote _ _ _)).
  rewrite http_Error_body.
  destruct (listLoop_keys pre newResponse Hok) as (Hb & Hw & _ & Hid & Hs).
  rewrite Hb. split; [reflexivity |]. split; [reflexivity |].
  destruct pre as [| p pre].
  - rewrite (Hid eq_refl eq_refl). apply http_Error_fresh. reflexivity.
  - destruct (http_Error_committed e StatusInternalServerError
                (listLoop (p :: pre) newResponse)) as [-> _].
    + apply Hw. discriminate.
    + rewrite Hs. reflexivity.
Qed.

(** A listing that does not fail is answered with 200 and the keys in the
    order of the backend, one per line. *)
Lemma list_keys_in_order {W : Type} (minio : Minio W) (g : Globals)
    (c : Client) (r : Request) (s s' : W) (objs : list ObjectInfo) :
  Path r = "/list" ->
  minioClient g = Some c ->
  ListObjects minio c (bucketName g) true s = (objs, s') ->
  Forall (fun o => Err o = None) objs ->
  let run := serveRequest minio g r s in
  completion run = Returned /\
  status (resp run) = StatusOK /\
  body (resp run) = lines (map Key objs).
Proof.
  intros Hpath Hc Hl Hok.
  unfold serveRequest, dispatch, listHandler.
  rewrite Hpath; simpl. rewrite Hc, Hl. cbn [completion resp world calls].
  destruct (listLoop_keys objs newResponse Hok) as (Hb & Hw & _ & Hid & Hs).
  destruct objs as [| o objs].
  - rewrite (Hid eq_refl eq_refl). repeat split; reflexivity.
  - rewrite finishRequest_wrote by (apply Hw; discriminate).
    rewrite Hb, Hs. repeat split; reflexivity.
Qed.

(** C8.  The listing that yields the key [a] and then the error
    [connection reset]: the line of [a] stays in the body and the error text
    follows it, but the status is the 200 that went out with that line, not
    500. *)
Theorem list_error_after_one_key_is_200 :
  let run := serveRequest (Scripted.minio brokenListing) served
               {| Path := "/list"; Query := ∅; Body := whole [] |} tt in
  completion run = Returned /\
  status (resp run) = 200 /\
  status (resp run) <> StatusInternalServerError /\
  body (resp run) =
    list_byte_of_string ("a" +:+ nl +:+ "connection reset" +:+ nl).
Proof.
  vm_compute. repeat split; try reflexivity; discriminate.
Qed.

(** ** Start-up: the shape of the traces *)

Lemma none_app (f : Event -> bool) (a b : list Event) :
  none f (a ++ b) <-> none f a /\ none f b.
Proof.
  unfold none. rewrite forallb_app. apply andb_true_iff.
Qed.

Lemma failedChecks_app (a b : list Event) :
  failedChecks (a ++ b) = failedChecks a ++ failedChecks b.
Proof. unfold failedChecks. apply omap_app. Qed.

Lemma checks_app (a b : list Event) : checks (a ++ b) = checks a ++ checks b.
Proof. unfold checks. apply List.filter_app. Qed.

Section StartupFacts.
Context {W : Type}.
Variable minio : Minio W.

Lemma connect_shape (fuel : nat) (endpoint : string) (opts : Options)
    (s s' : W) (c : option Client) (tr : list Event) :
  connect minio fuel endpoint opts s = (c, s', tr) ->
  exists es : list error,
    tr = flat_map (connectRound endpoint opts) es ++
         match c with
         | Some _ => [EvNew endpoint opts None]
         | None => []
         end /\
    match c with
    | Some c0 =>
        c0 = {| cl_endpoint := endpoint; cl_opts := opts |} /\
        (length es < fuel)%nat
    | None => length es = fuel
    end.
Proof.
  revert s s' c tr. induction fuel as [| fuel IH]; intros s s' c tr; simpl.
  - intros H; inversion H; subst. exists []. auto.
  - destruct (New minio endpoint opts s) as [[e |] s1].
    + destruct (connect minio fuel endpoint opts s1) as [[c1 s2] tr1] eqn:E.
      intros H; inversion H; subst.
      destruct (IH _ _ _ _ E) as (es & -> & Hc).
      exists (e :: es). split.
      * reflexivity.
      * destruct c; simpl; [destruct Hc; split; [assumption | lia] | lia].
    + intros H; inversion H; subst. exists []. simpl.
      repeat split; auto; lia.
Qed.

Lemma connect_events (fuel : nat) (endpoint : string) (opts : Options)
    (s : W) :
  forallb isConnectEvent (snd (connect minio fuel endpoint opts s)) = true.
Proof.
  revert s. induction fuel as [| fuel IH]; intros s; simpl; [reflexivity |].
  destruct (New minio endpoint opts s) as [[e |] s1]; [| reflexivity].
  specialize (IH s1).
  destruct (connect minio fuel endpoint opts s1) as [[c1 s2] tr1].
  simpl in *. exact IH.
Qed.


(** Once the construction has succeeded within [fuel] attempts, more
    attempts change nothing. *)
Lemma connect_more (fuel : nat) (endpoint : string) (opts : Options)
    (s s' : W) (c : Client) (tr : list Event) :
  connect minio fuel endpoint opts s = (Some c, s', tr) ->
  forall fuel', (fuel <= fuel')%nat ->
    connect minio fuel' endpoint opts s = (Some c, s', tr).
Proof.
  revert s s' tr. induction fuel as [| fuel IH]; intros s s' tr; simpl.
  - discriminate.
  - intros H fuel' Hle. destruct fuel' as [| fuel']; [lia |]. simpl.
    destruct (New minio endpoint opts s) as [[e |] s1]; [| exact H].
    destruct (connect minio fuel endpoint opts s1) as [[c1 s2] tr1] eqn:E.
    inversion H; subst.
    rewrite (IH _ _ _ E fuel') by lia. reflexivity.
Qed.

Lemma provision_end (c : Client) (bucket : string) (exists_ : bool)
    (s s' : W) (ok : bool) (tr : list Event) :
  provision minio c bucket exists_ s = (ok, s', tr) ->
  BucketEnd bucket ok (EvBucketExists bucket (inr exists_) :: tr).
Proof.
  unfold provision. destruct exists_.
  - intros H; inversion H; subst. constructor.
  - destruct (MakeBucket minio c bucket s) as [[e |] s1];
      intros H; inversion H; subst; constructor.
Qed.

(** The bucket loop of [src/server/main.go]: some failed rounds, then
    either one answered check, or, after the tenth failure, the fatal
    message with the last error. *)
Lemma bucketLoop_shape (n : nat) (i : Z) (c : Client) (bucket : string)
    (s s' : W) (ok : bool) (tr : list Event) :
  Server.bucketLoop minio n i c bucket s = (ok, s', tr) ->
  i + Z.of_nat n = 10 ->
  (0 < n)%nat ->
  exists es : list error,
    (exists post,
        BucketEnd bucket ok post /\
        tr = retryRounds bucket i es ++ post /\
        (length es < n)%nat) \/
    (ok = false /\ length es = n /\
     exists e, last es = Some e /\
       tr = retryRounds bucket i es ++
            Fatal ("Failed to connect to MinIO after 10 attempts: " +:+ e)).
Proof.
  revert i s s' ok tr.
  induction n as [| n IH]; intros i s s' ok tr; [lia |].
  simpl. intros H Hi _.
  destruct (BucketExists minio c bucket s) as [[e | exists_] s1].
  - destruct (Z.eqb_spec i 9) as [Hi9 | Hi9].
    + inversion H; subst. exists [e]. right.
      repeat split; [simpl; lia |]. exists e. split; reflexivity.
    + destruct (Server.bucketLoop minio n (i + 1) c bucket s1)
        as [[ok1 s2] tr1] eqn:E.
      inversion H; subst.
      destruct (IH _ _ _ _ _ E) as (es & Hes); [lia | lia |].
      exists (e :: es).
      destruct Hes as [(post & Hend & -> & Hlen) | (-> & Hlen & e' & Hl & ->)].
      * left. exists post. simpl. repeat split; auto; lia.
      * right. repeat split; [simpl; lia |]. exists e'. split.
        -- destruct es as [| e0 es]; [simpl in Hlen; lia | exact Hl].
        -- reflexivity.
  - destruct (provision minio c bucket exists_ s1) as [[ok1 s2] tr1] eqn:E.
    inversion H; subst. exists []. left.
    exists (EvBucketExists bucket (inr exists_) :: tr1).
    split; [eapply provision_end; eauto |].
    split; [reflexivity | simpl; lia].
Qed.

End StartupFacts.

Lemma retryRounds_facts (bucket : string) (es : list error) (i : Z) :
  failedChecks (retryRounds bucket i es) = es /\
  length (checks (retryRounds bucket i es)) = length es /\
  none isMakeBucket (retryRounds bucket i es) /\
  none isExit (retryRounds bucket i es) /\
  none isListen (retryRounds bucket i es) /\
  ~ In (EvBucketExists bucket (inr true)) (retryRounds bucket i es).
Proof.
  revert i. induction es as [| e es IH]; intros i.
  - simpl. repeat split; auto.
  - destruct (IH (i + 1)) as (H1 & H2 & H3 & H4 & H5 & H6).
    simpl. rewrite H1, H2. repeat split; auto.
    intros [H | [H | [H | H]]]; try discriminate. exact (H6 H).
Qed.

Lemma BucketEnd_facts (bucket : string) (ok : bool) (post : list Event) :
  BucketEnd bucket ok post ->
  failedChecks post = [] /\
  length (checks post) = 1%nat /\
  none isListen post /\
  (ok = true -> none isExit post /\ bucketConfirmed bucket post) /\
  (In (EvBucketExists bucket (inr true)) post ->
   ok = true /\
   post = [EvBucketExists bucket (inr true);
           EvLog ("Bucket already exists: " +:+ bucket)]).
Proof.
  intros H. unfold bucketConfirmed.
  destruct H; simpl; repeat split; auto; try discriminate;
    try tauto;
    match goal with
    | Hin : _ \/ _ |- _ =>
        decompose [or] Hin; try discriminate; contradiction
    end.
Qed.

Lemma connecting_app (a b : list Event) :
  connecting (a ++ b) <-> connecting a /\ connecting b.
Proof. unfold connecting. rewrite forallb_app. apply andb_true_iff. Qed.

Lemma connecting_none (f : Event -> bool) (pre : list Event) :
  (forall ev, isConnectEvent ev = true -> f ev = false) ->
  connecting pre -> none f pre.
Proof.
  unfold connecting, none. rewrite !forallb_forall. intros Hf H ev Hin.
  rewrite (Hf ev (H ev Hin)). reflexivity.
Qed.

Lemma connecting_not_In (pre : list Event) (ev : Event) :
  connecting pre -> isConnectEvent ev = false -> ~ In ev pre.
Proof.
  unfold connecting. rewrite forallb_forall. intros H Hev Hin.
  rewrite (H ev Hin) in Hev. discriminate.
Qed.

Lemma connecting_checks (pre : list Event) :
  connecting pre -> failedChecks pre = [] /\ checks pre = [].
Proof.
  unfold connecting. induction pre as [| ev pre IH]; [auto |].
  simpl. intros H. apply andb_true_iff in H as [Hev Hpre].
  destruct (IH Hpre) as [IH1 IH2].
  destruct ev; try discriminate; simpl; auto.
Qed.

Lemma not_In_app {A : Type} (x : A) (a b : list A) :
  ~ In x a -> ~ In x b -> ~ In x (a ++ b).
Proof. intros Ha Hb Hin. apply in_app_or in Hin. tauto. Qed.

Lemma serve_tail (p : Process) (g : Globals) :
  none isMakeBucket (snd (listenAndServe p g)) /\
  (forall b r, ~ In (EvBucketExists b r) (snd (listenAndServe p g))) /\
  failedChecks (snd (listenAndServe p g)) = [] /\
  checks (snd (listenAndServe p g)) = [].
Proof.
  unfold listenAndServe. destruct (listen p); simpl; repeat split; auto;
    intros b r Hin; decompose [or] Hin; try discriminate; contradiction.
Qed.

Section MainShape.
Context {W : Type}.
Variable minio : Minio W.

Lemma connect_connecting (fuel : nat) (endpoint : string) (opts : Options)
    (s s' : W) (c : option Client) (tr : list Event) :
  connect minio fuel endpoint opts s = (c, s', tr) -> connecting tr.
Proof.
  intros E. pose proof (connect_events minio fuel endpoint opts s) as H.
  rewrite E in H. exact H.
Qed.

(** The bucket step of either program, once connected: it ends the process
    without a listener and without a positive check, or it has the shape
    that [startup_ready] asks for. *)
Lemma ready_or_failed (p : Process) (pre mid : list Event) (c : Client)
    (b : string) (ok : bool) (es : list error) (post : list Event) :
  connecting pre ->
  BucketEnd b ok post ->
  (length es < 10)%nat ->
  mid = retryRounds b 0 es ++ post ->
  if ok then
    Startup p
      (fst (listenAndServe p {| minioClient := Some c; bucketName := b |}))
      ((pre ++ mid) ++
       snd (listenAndServe p {| minioClient := Some c; bucketName := b |}))
  else Startup p (Exited 1) (pre ++ mid).
Proof.
  intros Hpre Hend Hlen ->. destruct ok.
  - rewrite <- !app_assoc. apply startup_ready; assumption.
  - apply startup_failed; [assumption | |].
    + apply none_app. split; [apply retryRounds_facts |].
      apply (BucketEnd_facts b false post Hend).
    + intros b' Hin. apply in_app_or in Hin as [Hin | Hin].
      * inversion Hend; subst.
        clear Hend. revert Hin. generalize 0.
        induction es as [| e0 es IH]; intros i Hin; [exact Hin |].
        simpl in Hin. decompose [or] Hin; try discriminate.
        apply (IH ltac:(simpl in Hlen; lia) (i + 1)). assumption.
      * inversion Hend; subst. simpl in Hin.
        decompose [or] Hin; try discriminate; contradiction.
Qed.

Lemma Server_main_startup (fuel : nat) (p : Process) (s : W) :
  Startup p (fst (fst (Server.main minio fuel p s)))
            (snd (Server.main minio fuel p s)).
Proof.
  unfold Server.main.
  destruct (godotenv_Load p) as [err env].
  set (tr0 := match err with
              | Some _ => [EvLog "No .env file found or failed to load it"]
              | None => []
              end).
  assert (H0 : connecting tr0) by (subst tr0; destruct err; reflexivity).
  destruct (String.eqb (Getenv env "MINIO_ENDPOINT") "" ||
            String.eqb (Getenv env "MINIO_ACCESS_KEY") "" ||
            String.eqb (Getenv env "MINIO_SECRET_KEY") "" ||
            String.eqb (Getenv env "MINIO_BUCKET") "") eqn:Hcfg.
  { simpl. apply startup_unconfigured. exact H0. }
  destruct (connect minio fuel _ _ s) as [[[c |] s1] tr1] eqn:E1.
  2: { simpl. apply startup_retrying. apply connecting_app. split;
         [exact H0 | eapply connect_connecting; eauto]. }
  destruct (Server.bucketLoop minio 10 0 c _ s1) as [[ok s2] tr2] eqn:E2.
  assert (Hpre : connecting (tr0 ++ tr1 ++ [EvLog "Connected to MinIO"])).
  { apply connecting_app. split; [exact H0 |]. apply connecting_app. split;
      [eapply connect_connecting; eauto | reflexivity]. }
  destruct (bucketLoop_shape minio 10 0 c _ s1 s2 ok tr2 E2) as (es & Hes);
    [reflexivity | lia |].
  replace (tr0 ++ tr1 ++ [EvLog "Connected to MinIO"] ++ tr2)
    with ((tr0 ++ tr1 ++ [EvLog "Connected to MinIO"]) ++ tr2)
    by (rewrite <- !app_assoc; reflexivity).
  destruct Hes as [(post & Hend & Htr & Hlen) | (-> & Hlen & e & Hl & ->)].
  - pose proof (ready_or_failed p _ tr2 c _ ok es post Hpre Hend Hlen Htr)
      as H.
    destruct ok; [| exact H].
    destruct (listenAndServe p _) as [out tr3]. exact H.
  - simpl. apply startup_failed; [exact Hpre | |].
    + apply none_app. split; [apply retryRounds_facts | reflexivity].
    + intros b Hin. apply in_app_or in Hin as [Hin | Hin].
      * revert Hin. clear. generalize 0.
        induction es as [| e0 es IH]; intros i Hin; [exact Hin |].
        simpl in Hin. decompose [or] Hin; try discriminate.
        apply (IH (i + 1)). assumption.
      * simpl in Hin. decompose [or] Hin; try discriminate; contradiction.
Qed.

Lemma Part000_main_startup (fuel : nat) (p : Process) (s : W) :
  Startup p (fst (fst (Part000.main minio fuel p s)))
            (snd (Part000.main minio fuel p s)).
Proof.
  unfold Part000.main.
  destruct (String.eqb (Getenv (environ p) "MINIO_ENDPOINT") "" ||
            String.eqb (Getenv (environ p) "MINIO_ACCESS_KEY") "" ||
            String.eqb (Getenv (environ p) "MINIO_SECRET_KEY") "" ||
            String.eqb (Getenv (environ p) "MINIO_BUCKET") "") eqn:Hcfg.
  { simpl. apply (startup_unconfigured p []). reflexivity. }
  destruct (connect minio fuel _ _ s) as [[[c |] s1] tr1] eqn:E1.
  2: { simpl. apply startup_retrying. eapply connect_connecting; eauto. }
  assert (Hpre : connecting (tr1 ++ [EvLog "Connected to MinIO"])).
  { apply connecting_app. split;
      [eapply connect_connecting; eauto | reflexivity]. }
  destruct (BucketExists minio c _ s1) as [[e | exists_] s2].
  - simpl. apply startup_failed; [exact Hpre | reflexivity |].
    intros b Hin. simpl in Hin.
    decompose [or] Hin; try discriminate; contradiction.
  - destruct (provision minio c _ exists_ s2) as [[ok s3] tr2] eqn:E2.
    pose proof (provision_end minio c _ exists_ s2 s3 ok tr2 E2) as Hend.
    pose proof (ready_or_failed p _ _ c _ ok [] _ Hpre Hend
                  ltac:(simpl; lia) eq_refl) as H.
    destruct ok; [| exact H].
    destruct (listenAndServe p _) as [out tr3]. exact H.
Qed.

End MainShape.

(** ** Start-up: the bucket *)

Lemma retryRounds_no_positive (b b' : string) (es : list error) (i : Z) :
  ~ In (EvBucketExists b' (inr true)) (retryRounds b i es).
Proof.
  revert i. induction es as [| e es IH]; intros i Hin; [exact Hin |].
  simpl in Hin. decompose [or] Hin; try discriminate.
  apply (IH (i + 1)). assumption.
Qed.

Lemma startup_existing_bucket (p : Process) (out : Outcome)
    (tr : list Event) (b : string) :
  Startup p out tr ->
  In (EvBucketExists b (inr true)) tr ->
  none isMakeBucket tr /\
  exists pre c,
    let g := {| minioClient := Some c; bucketName := b |} in
    tr = pre ++ [EvBucketExists b (inr true);
                 EvLog ("Bucket already exists: " +:+ b)]
             ++ snd (listenAndServe p g) /\
    out = fst (listenAndServe p g) /\
    none isExit pre /\
    ~ In (EvBucketExists b (inr true)) pre.
Proof.
  intros H Hin. destruct H as [pre Hpre | pre Hpre | pre mid Hpre _ Hmid
                               | pre es post c b0 Hpre Hlen Hend].
  - exfalso. apply in_app_or in Hin as [Hin | Hin].
    + revert Hin. apply connecting_not_In; [exact Hpre | reflexivity].
    + simpl in Hin. decompose [or] Hin; try discriminate; contradiction.
  - exfalso. revert Hin. apply connecting_not_In; [exact Hpre | reflexivity].
  - exfalso. apply in_app_or in Hin as [Hin | Hin].
    + revert Hin. apply connecting_not_In; [exact Hpre | reflexivity].
    + exact (Hmid b Hin).
  - assert (Hpost : In (EvBucketExists b (inr true)) post).
    { apply in_app_or in Hin as [Hin | Hin].
      { exfalso. revert Hin.
        apply connecting_not_In; [exact Hpre | reflexivity]. }
      apply in_app_or in Hin as [Hin | Hin].
      { exfalso. exact (retryRounds_no_positive _ _ _ _ Hin). }
      apply in_app_or in Hin as [Hin | Hin]; [exact Hin |].
      exfalso. exact (proj1 (proj2 (serve_tail p _)) _ _ Hin). }
    assert (Hb : b0 = b /\ post = [EvBucketExists b (inr true);
                                   EvLog ("Bucket already exists: " +:+ b)]).
    { inversion Hend; subst; simpl in Hpost;
        decompose [or] Hpost; try discriminate; try contradiction.
      match goal with H : EvBucketExists _ _ = _ |- _ => inversion H end.
      subst. auto. }
    destruct Hb as [-> ->]. split.
    + apply none_app. split.
      { apply connecting_none; [| exact Hpre].
        intros ev; destruct ev; simpl; congruence. }
      apply none_app. split; [apply retryRounds_facts |].
      apply none_app. split; [reflexivity | apply serve_tail].
    + exists (pre ++ retryRounds b 0 es), c. cbv zeta.
      rewrite <- !app_assoc. repeat split.
      * apply none_app. split; [| apply retryRounds_facts].
        apply connecting_none; [| exact Hpre].
        intros ev; destruct ev; simpl; congruence.
      * apply not_In_app; [| apply retryRounds_no_positive].
        apply connecting_not_In; [exact Hpre | reflexivity].
Qed.

(** C4.  In either program, when a bucket-existence check succeeds and
    reports that the bucket exists, the run makes no [MakeBucket] call at
    all; no exit precedes the check; the check is followed by the log line
    and the call of the listener, with no further backend call; and the
    outcome is that of the listener (serving, when the listener can be set
    up). *)
Theorem existing_bucket_not_recreated {W : Type} (minio : Minio W)
    (main : nat -> Process -> W -> Outcome * W * list Event)
    (fuel : nat) (p : Process) (s : W) (b : string) :
  main = Server.main minio \/ main = Part000.main minio ->
  In (EvBucketExists b (inr true)) (snd (main fuel p s)) ->
  let out := fst (fst (main fuel p s)) in
  let tr := snd (main fuel p s) in
  none isMakeBucket tr /\
  exists pre c,
    let g := {| minioClient := Some c; bucketName := b |} in
    tr = pre ++ [EvBucketExists b (inr true);
                 EvLog ("Bucket already exists: " +:+ b)]
             ++ snd (listenAndServe p g) /\
    none isExit pre /\
    none is_backend_call
      (EvLog ("Bucket already exists: " +:+ b) :: snd (listenAndServe p g)) /\
    out = fst (listenAndServe p g) /\
    (listen p = None -> out = Serving g).
Proof.
  intros Hmain Hin out tr.
  assert (Hst : Startup p out tr).
  { subst out tr. destruct Hmain as [-> | ->];
      [apply Server_main_startup | apply Part000_main_startup]. }
  destruct (startup_existing_bucket p out tr b Hst Hin)
    as (Hmk & pre & c & Htr & Hout & Hex & _).
  split; [exact Hmk |]. exists pre, c. cbv zeta.
  repeat split; try assumption.
  - unfold listenAndServe. destruct (listen p); reflexivity.
  - intros Hl. rewrite Hout. unfold listenAndServe. rewrite Hl. reflexivity.
Qed.

Lemma existing_bucket_not_recreated_witness :
  let s := Mem.slow 2 3 {[ "files" := ∅ ]} in
  none isMakeBucket (snd (Server.main Mem.minio 5 aProcess s)) /\
  fst (fst (Server.main Mem.minio 5 aProcess s)) = Serving served.
Proof.
  destruct (existing_bucket_not_recreated Mem.minio (Server.main Mem.minio)
              5 aProcess (Mem.slow 2 3 {[ "files" := ∅ ]}) "files")
    as (Hmk & pre & c & _ & _ & _ & _ & _).
  - left. reflexivity.
  - vm_compute. tauto.
  - split; [exact Hmk | vm_compute; reflexivity].
Defined.

(** ** Start-up: what holds when the listener runs *)




(** ** Start-up: the bounded retry of [src/server/main.go] *)

(** C5.  Every run of [main] of [src/server/main.go] has a trace made of
    events without any bucket check, then the failed checks, each followed by
    its log line and a sleep of two seconds, then a rest without failed
    checks; the checks are at most ten in all.  When ten checks have failed,
    the rest is the fatal message carrying the error of the tenth, the
    outcome is the exit with code 1, and the listener is never called. *)
Theorem bucket_check_at_most_ten {W : Type} (minio : Minio W) (fuel : nat)
    (p : Process) (s : W) :
  let out := fst (fst (Server.main minio fuel p s)) in
  let tr := snd (Server.main minio fuel p s) in
  (length (checks tr) <= 10)%nat /\
  exists b pre post,
    tr = pre ++ retryRounds b 0 (failedChecks tr) ++ post /\
    checks pre = [] /\
    failedChecks post = [] /\
    (length (failedChecks tr) = 10%nat ->
     out = Exited 1 /\
     none isListen tr /\
     exists e,
       last (failedChecks tr) = Some e /\
       post = Fatal ("Failed to connect to MinIO after 10 attempts: " +:+ e)).
Proof.
  cbv zeta. unfold Server.main.
  destruct (godotenv_Load p) as [err env].
  set (tr0 := match err with
              | Some _ => [EvLog "No .env file found or failed to load it"]
              | None => []
              end).
  assert (H0 : connecting tr0) by (subst tr0; destruct err; reflexivity).
  set (b := Getenv env "MINIO_BUCKET").
  destruct (String.eqb (Getenv env "MINIO_ENDPOINT") "" ||
            String.eqb (Getenv env "MINIO_ACCESS_KEY") "" ||
            String.eqb (Getenv env "MINIO_SECRET_KEY") "" ||
            String.eqb b "") eqn:Hcfg.
  { simpl. destruct (connecting_checks tr0 H0) as [Hf Hc].
    rewrite checks_app, failedChecks_app, Hf, Hc. simpl.
    split; [lia |]. exists b, tr0.
    exists (Fatal "One or more required environment variables are missing").
    repeat split; auto; discriminate. }
  destruct (connect minio fuel _ _ s) as [[[c |] s1] tr1] eqn:E1.
  2: { simpl.
       assert (Hpre : connecting (tr0 ++ tr1)).
       { apply connecting_app. split;
           [exact H0 | eapply connect_connecting; eauto]. }
       destruct (connecting_checks _ Hpre) as [Hf Hc]. rewrite Hf, Hc. simpl.
       split; [lia |]. exists b, (tr0 ++ tr1), [].
       rewrite app_nil_r. repeat split; auto; discriminate. }
  destruct (Server.bucketLoop minio 10 0 c b s1) as [[ok s2] tr2] eqn:E2.
  assert (Hpre : connecting (tr0 ++ tr1 ++ [EvLog "Connected to MinIO"])).
  { apply connecting_app. split; [exact H0 |]. apply connecting_app. split;
      [eapply connect_connecting; eauto | reflexivity]. }
  destruct (connecting_checks _ Hpre) as [Hf Hc].
  destruct (bucketLoop_shape minio 10 0 c b s1 s2 ok tr2 E2) as (es & Hes);
    [reflexivity | lia |].
  replace (tr0 ++ tr1 ++ [EvLog "Connected to MinIO"] ++ tr2)
    with ((tr0 ++ tr1 ++ [EvLog "Connected to MinIO"]) ++ tr2)
    by (rewrite <- !app_assoc; reflexivity).
  set (pre := tr0 ++ tr1 ++ [EvLog "Connected to MinIO"]) in *.
  destruct (retryRounds_facts b es 0) as (Rf & Rc & _ & _ & Rl & _).
  destruct Hes as [(post & Hend & -> & Hlen) | (-> & Hlen & e & Hl & ->)].
  - destruct (BucketEnd_facts b ok post Hend) as (Pf & Pc & _).
    set (g := {| minioClient := Some c; bucketName := b |}).
    destruct (serve_tail p g) as (_ & _ & Sf & Sc).
    assert (Hrest : exists rest,
               snd (if ok
                    then let '(out, tr3) := listenAndServe p g in
                         (out, s2, (pre ++ retryRounds b 0 es ++ post) ++ tr3)
                    else (Exited 1, s2, pre ++ retryRounds b 0 es ++ post))
               = pre ++ retryRounds b 0 es ++ post ++ rest /\
               failedChecks rest = [] /\ checks rest = []).
    { destruct ok.
      - exists (snd (listenAndServe p g)).
        destruct (listenAndServe p g) as [out tr3]; simpl in *.
        rewrite <- !app_assoc. auto.
      - exists []. rewrite app_nil_r. auto. }
    destruct Hrest as (rest & -> & Ef & Ec).
    rewrite !checks_app, !failedChecks_app, Hf, Hc, Rf, Pf, Ef, Ec.
    rewrite !app_nil_r, !length_app, Rc, Pc. simpl.
    split; [lia |]. exists b, pre, (post ++ rest).
    split; [reflexivity |]. split; [exact Hc |].
    split; [rewrite failedChecks_app, Pf, Ef; reflexivity |].
    intros H10. lia.
  - simpl fst. simpl snd.
    rewrite !checks_app, !failedChecks_app, Hf, Hc, Rf. simpl.
    rewrite !app_nil_r, Rc.
    split; [lia |].
    exists b, pre,
      (Fatal ("Failed to connect to MinIO after 10 attempts: " +:+ e)).
    repeat split; auto.
    + apply none_app. split.
      { apply connecting_none; [| exact Hpre].
        intros ev; destruct ev; simpl; congruence. }
      apply none_app. split; [exact Rl | reflexivity].
    + exists e. auto.
Qed.

Lemma bucket_check_at_most_ten_witness :
  let run := Server.main Mem.minio 3 aProcess (Mem.slow 1 10 ∅) in
  fst (fst run) = Exited 1 /\
  none isListen (snd run) /\
  exists post,
    post = Fatal ("Failed to connect to MinIO after 10 attempts: "
                  +:+ Mem.refused) /\
    exists pre, snd run = pre ++ post.
Proof.
  destruct (bucket_check_at_most_ten Mem.minio 3 aProcess (Mem.slow 1 10 ∅))
    as (_ & b & pre & post & Htr & _ & _ & H10).
  destruct H10 as (Hout & Hl & e & He & Hpost).
  - vm_compute. reflexivity.
  - split; [exact Hout |]. split; [exact Hl |].
    exists post. split.
    + rewrite Hpost. f_equal. f_equal.
      revert He. vm_compute. intros H; injection H as <-. reflexivity.
    + eexists. rewrite app_assoc in Htr. exact Htr.
Defined.

(** ** Start-up: the unbounded retry of the client construction *)



(** A service that refuses four constructions: three attempts leave the
    program retrying, five connect it. *)
Example retrying_then_connected :
  fst (fst (Part000.main Mem.minio 3 aProcess (Mem.slow 4 0 ∅))) = Retrying /\
  fst (fst (Part000.main Mem.minio 5 aProcess (Mem.slow 4 0 ∅)))
    = Serving served /\
  List.filter (fun ev => match ev with EvSleep _ => true | _ => false end)
    (snd (Part000.main Mem.minio 5 aProcess (Mem.slow 4 0 ∅)))
    = [EvSleep 2000000000; EvSleep 2000000000;
       EvSleep 2000000000; EvSleep 2000000000].
Proof. vm_compute. auto. Qed.

(** * Further properties of the handlers *)

(** X1.  An upload with a non-empty key makes exactly one [PutObject] call,
    on the configured bucket, with that key, the request body and the size
    -1, and the world is what that call left.  When the call returns no error
    the response is 200 with the confirmation naming the key; when it returns
    an error the response is 500 with [Upload failed: ] and the error; there
    is no second attempt. *)
Theorem upload_outcome {W : Type} (minio : Minio W) (g : Globals) (c : Client)
    (r : Request) (s : W) :
  Path r = "/upload" ->
  minioClient g = Some c ->
  Values_Get (Query r) "key" <> "" ->
  let K := Values_Get (Query r) "key" in
  let put := PutObject minio c (bucketName g) K (Body r) (-1) s in
  let run := serveRequest minio g r s in
  completion run = Returned /\
  world run = snd put /\
  calls run = [EvPutObject (bucketName g) K (-1) (fst put)] /\
  match fst put with
  | None =>
      status (resp run) = StatusOK /\
      body (resp run) =
        list_byte_of_string ("Uploaded " +:+ K +:+ " successfully" +:+ nl)
  | Some e =>
      status (resp run) = StatusInternalServerError /\
      body (resp run) = list_byte_of_string ("Upload failed: " +:+ e +:+ nl)
  end.
Proof.
  intros Hpath Hc Hkey. cbv zeta.
  unfold serveRequest, dispatch, uploadHandler.
  rewrite Hpath; simpl. rewrite (eqb_empty_false _ Hkey), Hc.
  destruct (PutObject minio c (bucketName g) (Values_Get (Query r) "key")
              (Body r) (-1) s) as [[e |] s1];
    cbn [completion resp world calls fst snd].
  - rewrite (finishRequest_wrote (http_Error _ _ _) (http_Error_wrote _ _ _)).
    rewrite http_Error_fresh, http_Error_body by reflexivity.
    repeat split; reflexivity.
  - unfold Fprint.
    rewrite (finishRequest_wrote (Write _ _) (Write_wrote _ _)).
    rewrite Write_body.
    destruct (Write_fresh
                (list_byte_of_string
                   ("Uploaded " +:+ Values_Get (Query r) "key" +:+
                    " successfully" +:+ nl)) newResponse eq_refl) as [-> _].
    repeat split; reflexivity.
Qed.

Lemma upload_outcome_witness :
  let run := serveRequest Mem.minio served
               (request "/upload" "k" (whole [x01])) (Mem.slow 0 0 ∅) in
  status (resp run) = 500 /\
  body (resp run) =
    list_byte_of_string
      ("Upload failed: The specified bucket does not exist" +:+ nl) /\
  calls run =
    [EvPutObject "files" "k" (-1)
       (Some "The specified bucket does not exist")] /\
  world run = Mem.slow 0 0 ∅.
Proof.
  pose proof (upload_outcome Mem.minio served aClient
                (request "/upload" "k" (whole [x01])) (Mem.slow 0 0 ∅)) as H.
  destruct H as (_ & Hw & Hcalls & Hs & Hb).
  - reflexivity.
  - reflexivity.
  - vm_compute. discriminate.
  - cbv zeta. split; [exact Hs |]. split; [exact Hb |].
    split; [exact Hcalls | exact Hw].
Defined.

Lemma listLoop_committed (objs : list ObjectInfo) (w : response) :
  wroteHeader w = true ->
  wroteHeader (listLoop objs w) = true /\
  status (listLoop objs w) = status w.
Proof.
  revert w. induction objs as [| o objs IH]; intros w Hw; simpl; [auto |].
  destruct (Err o) as [e |].
  - split; [apply http_Error_wrote |].
    apply (http_Error_committed e StatusInternalServerError w Hw).
  - destruct (IH (Fprintln (Key o) w) (Fprintln_wrote _ _)) as [H1 H2].
    rewrite H1, H2, Fprintln_status, Hw. auto.
Qed.

Lemma listLoop_finished (objs : list ObjectInfo) :
  wroteHeader (finishRequest (listLoop objs newResponse)) = true /\
  (status (finishRequest (listLoop objs newResponse)) = StatusOK \/
   status (finishRequest (listLoop objs newResponse))
     = StatusInternalServerError).
Proof.
  destruct objs as [| o objs]; simpl; [auto |].
  destruct (Err o) as [e |].
  - rewrite (finishRequest_wrote (http_Error _ _ _) (http_Error_wrote _ _ _)).
    split; [apply http_Error_wrote |]. right.
    apply http_Error_fresh. reflexivity.
  - destruct (listLoop_committed objs (Fprintln (Key o) newResponse)
                (Fprintln_wrote _ _)) as [H1 H2].
    rewrite (finishRequest_wrote _ H1). split; [exact H1 |]. left.
    rewrite H2, Fprintln_status. reflexivity.
Qed.

(** X2.  With the client set, every request whose path is one of the three
    registered patterns, whatever its parameters and body and whatever the
    backend answers, is handled without a panic; the header is sent and the
    status is 200, 400 or 500; at most one backend call is made, and it is on
    the configured bucket; a response with status 400 comes without any
    backend call and leaves the world as it was. *)
Theorem routed_request_answered {W : Type} (minio : Minio W) (g : Globals)
    (c : Client) (r : Request) (s : W) :
  minioClient g = Some c ->
  Path r = "/upload" \/ Path r = "/download" \/ Path r = "/list" ->
  let run := serveRequest minio g r s in
  completion run = Returned /\
  wroteHeader (resp run) = true /\
  In (status (resp run))
     [StatusOK; StatusBadRequest; StatusInternalServerError] /\
  (length (calls run) <= 1)%nat /\
  (forall ev, In ev (calls run) -> eventBucket ev = Some (bucketName g)) /\
  (status (resp run) = StatusBadRequest -> calls run = [] /\ world run = s).
Proof.
  intros Hc Hpath. cbv zeta.
  assert (Herr : forall msg code (w0 : W) (cs : list Event),
            In code [StatusOK; StatusBadRequest; StatusInternalServerError] ->
            (length cs <= 1)%nat ->
            (forall ev, In ev cs -> eventBucket ev = Some (bucketName g)) ->
            (code = StatusBadRequest -> cs = [] /\ w0 = s) ->
            let run := {| completion := Returned;
                          resp := finishRequest
                                    (http_Error msg code newResponse);
                          world := w0; calls := cs |} in
            completion run = Returned /\
            wroteHeader (resp run) = true /\
            In (status (resp run))
               [StatusOK; StatusBadRequest; StatusInternalServerError] /\
            (length (calls run) <= 1)%nat /\
            (forall ev, In ev (calls run) ->
                        eventBucket ev = Some (bucketName g)) /\
            (status (resp run) = StatusBadRequest ->
             calls run = [] /\ world run = s)).
  { intros msg code w0 cs Hin Hlen Hb Hcs. cbv zeta.
    cbn [completion resp world calls].
    rewrite (finishRequest_wrote (http_Error _ _ _) (http_Error_wrote _ _ _)).
    rewrite http_Error_wrote, http_Error_fresh by reflexivity.
    repeat split; auto; apply Hcs; assumption. }
  unfold serveRequest, dispatch.
  destruct Hpath as [Hp | [Hp | Hp]]; rewrite Hp; simpl String.eqb; cbv iota.
  - unfold uploadHandler.
    destruct (String.eqb (Values_Get (Query r) "key") "").
    { apply Herr; simpl; auto; try tauto. }
    rewrite Hc.
    destruct (PutObject minio c (bucketName g) (Values_Get (Query r) "key")
                (Body r) (-1) s) as [[e |] s1].
    + apply Herr; simpl; auto.
      * intros ev [<- | []]. reflexivity.
      * unfold StatusInternalServerError, StatusBadRequest. discriminate.
    + cbn [completion resp world calls]. unfold Fprint.
      rewrite (finishRequest_wrote (Write _ _) (Write_wrote _ _)).
      rewrite Write_wrote.
      match goal with
      | |- context [status (Write ?b newResponse)] =>
          destruct (Write_fresh b newResponse eq_refl) as [-> _]
      end.
      repeat split; simpl; auto;
        try (intros ev [<- | []]; reflexivity);
        exfalso; unfold StatusOK, StatusBadRequest in *; discriminate.
  - unfold downloadHandler.
    destruct (String.eqb (Values_Get (Query r) "key") "").
    { apply Herr; simpl; auto; try tauto. }
    rewrite Hc.
    destruct (GetObject minio c (bucketName g) (Values_Get (Query r) "key") s)
      as [[e | obj] s1].
    + apply Herr; simpl; auto.
      * intros ev [<- | []]. reflexivity.
      * unfold StatusInternalServerError, StatusBadRequest. discriminate.
    + cbn [completion resp world calls io_Copy fst].
      fold committedInline.
      destruct (copy_chunks_committed (rd_chunks obj) committedInline eq_refl)
        as (H1 & H2 & _).
      rewrite (finishRequest_wrote _ H1), H1, H2.
      repeat split; simpl; auto;
        try (intros ev [<- | []]; reflexivity);
        exfalso; unfold StatusOK, StatusBadRequest in *; discriminate.
  - unfold listHandler. rewrite Hc.
    destruct (ListObjects minio c (bucketName g) true s) as [objs s1].
    cbn [completion resp world calls].
    destruct (listLoop_finished objs) as [H1 H2].
    rewrite H1. repeat split; simpl; auto;
      try (intros ev [<- | []]; reflexivity);
      try (destruct H2 as [-> | ->]; auto; fail);
      exfalso; unfold StatusOK, StatusBadRequest,
        StatusInternalServerError in *;
      destruct H2 as [H2 | H2]; rewrite H2 in *; discriminate.
Qed.

Lemma routed_request_answered_witness :
  let run := serveRequest (Scripted.minio brokenListing) served
               {| Path := "/upload"; Query := ∅; Body := whole [] |} tt in
  completion run = Returned /\ wroteHeader (resp run) = true /\
  calls run = [].
Proof.
  destruct (routed_request_answered (Scripted.minio brokenListing) served
              aClient
              {| Path := "/upload"; Query := ∅; Body := whole [] |} tt)
    as (H1 & H2 & _ & _ & _ & H6).
  - reflexivity.
  - left. reflexivity.
  - split; [exact H1 |]. split; [exact H2 |].
    apply H6. vm_compute. reflexivity.
Defined.

Lemma list_keys_in_order_witness :
  let run := serveRequest (Scripted.minio twoKeys) served
               {| Path := "/list"; Query := ∅; Body := whole [] |} tt in
  completion run = Returned /\
  status (resp run) = 200 /\
  body (resp run) = list_byte_of_string ("b/c" +:+ nl +:+ "a" +:+ nl).
Proof.
  apply (list_keys_in_order (Scripted.minio twoKeys) served aClient
           {| Path := "/list"; Query := ∅; Body := whole [] |} tt tt
           (Scripted.list_result twoKeys)).
  - reflexivity.
  - reflexivity.
  - reflexivity.
  - repeat constructor.
Defined.

Lemma list_error_after_keys_witness :
  let run := serveRequest (Scripted.minio failsAtOnce) served
               {| Path := "/list"; Query := ∅; Body := whole [] |} tt in
  completion run = Returned /\
  body (resp run) = list_byte_of_string ("Access Denied." +:+ nl) /\
  status (resp run) = 500.
Proof.
  apply (list_error_after_keys (Scripted.minio failsAtOnce) served aClient
           {| Path := "/list"; Query := ∅; Body := whole [] |} tt tt
           [] [{| Key := "late"; Err := None |}]
           {| Key := ""; Err := Some "Access Denied." |} "Access Denied.").
  - reflexivity.
  - reflexivity.
  - reflexivity.
  - constructor.
  - reflexivity.
Defined.

(** * Further properties of the start-up *)

Lemma config_missing (env : gmap string string) :
  String.eqb (Getenv env "MINIO_ENDPOINT") "" ||
  String.eqb (Getenv env "MINIO_ACCESS_KEY") "" ||
  String.eqb (Getenv env "MINIO_SECRET_KEY") "" ||
  String.eqb (Getenv env "MINIO_BUCKET") "" = true <->
  exists k, In k requiredVariables /\ Getenv env k = "".
Proof.
  rewrite !orb_true_iff, !String.eqb_eq. unfold requiredVariables. split.
  - intros [[[H | H] | H] | H]; eexists; (split; [| exact H]); simpl; auto.
  - intros (k & Hin & Hk). simpl in Hin.
    decompose [or] Hin; subst; try contradiction; auto.
Qed.

Lemma config_present (env : gmap string string) :
  String.eqb (Getenv env "MINIO_ENDPOINT") "" ||
  String.eqb (Getenv env "MINIO_ACCESS_KEY") "" ||
  String.eqb (Getenv env "MINIO_SECRET_KEY") "" ||
  String.eqb (Getenv env "MINIO_BUCKET") "" = false ->
  forall k, In k requiredVariables -> Getenv env k <> "".
Proof.
  intros H k Hin Hk.
  assert (Ht : String.eqb (Getenv env "MINIO_ENDPOINT") "" ||
               String.eqb (Getenv env "MINIO_ACCESS_KEY") "" ||
               String.eqb (Getenv env "MINIO_SECRET_KEY") "" ||
               String.eqb (Getenv env "MINIO_BUCKET") "" = true)
    by (apply config_missing; eauto).
  congruence.
Qed.

Lemma exec_connected_eq (bounded : bool) (p : Process)
    (env : gmap string string) (pre : list Event) (es : list error)
    (ok : bool) (phase : list Event) (out : Outcome) (tr : list Event) :
  (forall k, In k requiredVariables -> Getenv env k <> "") ->
  BucketPhase bounded (bucketOf env) ok phase ->
  out = (if ok then fst (listenAndServe p (globalsOf env)) else Exited 1) ->
  tr = pre ++ flat_map (connectRound (endpointOf env) (optionsOf env)) es ++
       [EvNew (endpointOf env) (optionsOf env) None;
        EvLog "Connected to MinIO"] ++
       phase ++
       (if ok then snd (listenAndServe p (globalsOf env)) else []) ->
  Execution bounded p env pre out tr.
Proof. intros Hcfg Hph -> ->. apply exec_connected; assumption. Qed.

Section Executions.
Context {W : Type}.
Variable minio : Minio W.

Lemma Server_main_execution (fuel : nat) (p : Process) (s : W) :
  Execution true p (snd (godotenv_Load p)) (dotenvLog p)
    (fst (fst (Server.main minio fuel p s)))
    (snd (Server.main minio fuel p s)).
Proof.
  unfold Server.main.
  assert (Hlog : match fst (godotenv_Load p) with
                 | Some _ => [EvLog "No .env file found or failed to load it"]
                 | None => []
                 end = dotenvLog p).
  { unfold godotenv_Load, dotenvLog. destruct (dotenv p); reflexivity. }
  destruct (godotenv_Load p) as [err env]. cbn [fst snd] in *.
  rewrite Hlog. clear Hlog err.
  destruct (String.eqb (Getenv env "MINIO_ENDPOINT") "" ||
            String.eqb (Getenv env "MINIO_ACCESS_KEY") "" ||
            String.eqb (Getenv env "MINIO_SECRET_KEY") "" ||
            String.eqb (Getenv env "MINIO_BUCKET") "") eqn:Hcfg.
  { cbn [fst snd]. apply exec_unconfigured. apply config_missing. exact Hcfg. }
  pose proof (config_present env Hcfg) as Hpres.
  fold (endpointOf env) (optionsOf env) (bucketOf env).
  destruct (connect minio fuel (endpointOf env) (optionsOf env) s)
    as [[c1 s1] tr1] eqn:E1.
  destruct (connect_shape minio fuel _ _ s s1 c1 tr1 E1) as (es & -> & Hc1).
  destruct c1 as [c |].
  2: { cbn [fst snd]. rewrite app_nil_r. apply exec_retrying. exact Hpres. }
  destruct Hc1 as [-> _].
  destruct (Server.bucketLoop minio 10 0 _ (bucketOf env) s1)
    as [[ok s2] tr2] eqn:E2.
  destruct (bucketLoop_shape minio 10 0 _ _ s1 s2 ok tr2 E2) as (es2 & Hes2);
    [reflexivity | lia |].
  assert (Hph : BucketPhase true (bucketOf env) ok tr2).
  { destruct Hes2 as [(post & Hend & -> & Hlen)
                     | (-> & Hlen & e & Hl & ->)].
    - apply phase_answered; [exact Hlen | discriminate | exact Hend].
    - apply phase_exhausted; [reflexivity | exact Hlen | exact Hl]. }
  fold (globalsOf env).
  destruct ok.
  - destruct (listenAndServe p (globalsOf env)) as [out tr3] eqn:E3.
    cbn [fst snd].
    eapply (exec_connected_eq true p env _ es true tr2); eauto.
    + rewrite E3. reflexivity.
    + rewrite E3. cbn [fst snd]. rewrite <- ?app_assoc. reflexivity.
  - cbn [fst snd].
    eapply (exec_connected_eq true p env _ es false tr2); eauto.
    rewrite app_nil_r, <- ?app_assoc. reflexivity.
Qed.

Lemma Part000_main_execution (fuel : nat) (p : Process) (s : W) :
  Execution false p (environ p) []
    (fst (fst (Part000.main minio fuel p s)))
    (snd (Part000.main minio fuel p s)).
Proof.
  unfold Part000.main.
  destruct (String.eqb (Getenv (environ p) "MINIO_ENDPOINT") "" ||
            String.eqb (Getenv (environ p) "MINIO_ACCESS_KEY") "" ||
            String.eqb (Getenv (environ p) "MINIO_SECRET_KEY") "" ||
            String.eqb (Getenv (environ p) "MINIO_BUCKET") "") eqn:Hcfg.
  { cbn [fst snd]. apply (exec_unconfigured false p (environ p) []).
    apply config_missing. exact Hcfg. }
  pose proof (config_present _ Hcfg) as Hpres.
  fold (endpointOf (environ p)) (optionsOf (environ p)) (bucketOf (environ p)).
  destruct (connect minio fuel (endpointOf (environ p))
              (optionsOf (environ p)) s) as [[c1 s1] tr1] eqn:E1.
  destruct (connect_shape minio fuel _ _ s s1 c1 tr1 E1) as (es & -> & Hc1).
  destruct c1 as [c |].
  2: { cbn [fst snd]. rewrite app_nil_r.
       apply (exec_retrying false p (environ p) [] es). exact Hpres. }
  destruct Hc1 as [-> _].
  destruct (BucketExists minio _ (bucketOf (environ p)) s1)
    as [[e | exists_] s2].
  - cbn [fst snd].
    eapply (exec_connected_eq false p (environ p) [] es false
              (EvBucketExists (bucketOf (environ p)) (inl e)
                 :: Fatal ("BucketExists error: " +:+ e))); eauto.
    + apply phase_check_failed. reflexivity.
    + rewrite app_nil_r, <- ?app_assoc. reflexivity.
  - destruct (provision minio _ (bucketOf (environ p)) exists_ s2)
      as [[ok s3] tr2] eqn:E2.
    pose proof (provision_end minio _ _ exists_ s2 s3 ok tr2 E2) as Hend.
    assert (Hph : BucketPhase false (bucketOf (environ p)) ok
                    (EvBucketExists (bucketOf (environ p)) (inr exists_)
                       :: tr2)).
    { apply (phase_answered false _ [] ok); [simpl; lia | auto | exact Hend]. }
    fold (globalsOf (environ p)).
    destruct ok.
    + destruct (listenAndServe p (globalsOf (environ p))) as [out tr3] eqn:E3.
      cbn [fst snd].
      eapply (exec_connected_eq false p (environ p) [] es true); eauto.
      * rewrite E3. reflexivity.
      * rewrite E3. cbn [fst snd]. rewrite <- ?app_assoc. reflexivity.
    + cbn [fst snd].
      eapply (exec_connected_eq false p (environ p) [] es false); eauto.
      rewrite app_nil_r, <- ?app_assoc. reflexivity.
Qed.

End Executions.

(** X5.  In either program, when one of the four settings is missing or
    empty (for [src/server/main.go]: after the [.env] file has been loaded),
    the run ends with the exit code 1 after the message about the missing
    variables, whatever the number of attempts allowed; nothing was asked of
    the backend, the outside world is as it was and the listener is not
    called. *)
Theorem missing_setting_is_fatal {W : Type} (minio : Minio W)
    (main : nat -> Process -> W -> Outcome * W * list Event)
    (env : gmap string string) (fuel : nat) (p : Process) (s : W)
    (k : string) :
  (main = Server.main minio /\ env = snd (godotenv_Load p)) \/
  (main = Part000.main minio /\ env = environ p) ->
  In k requiredVariables ->
  Getenv env k = "" ->
  fst (fst (main fuel p s)) = Exited 1 /\
  snd (fst (main fuel p s)) = s /\
  none is_backend_call (snd (main fuel p s)) /\
  none isListen (snd (main fuel p s)) /\
  exists pre,
    snd (main fuel p s) =
    pre ++ Fatal "One or more required environment variables are missing".
Proof.
  intros Hmain Hin Hk.
  assert (Hcfg : String.eqb (Getenv env "MINIO_ENDPOINT") "" ||
                 String.eqb (Getenv env "MINIO_ACCESS_KEY") "" ||
                 String.eqb (Getenv env "MINIO_SECRET_KEY") "" ||
                 String.eqb (Getenv env "MINIO_BUCKET") "" = true)
    by (apply config_missing; eauto).
  destruct Hmain as [[-> ->] | [-> ->]].
  - unfold Server.main. destruct (godotenv_Load p) as [err env].
    cbn [snd] in Hcfg. rewrite Hcfg. cbn [fst snd].
    repeat split; try (destruct err; reflexivity). eauto.
  - unfold Part000.main. rewrite Hcfg. cbn [fst snd].
    repeat split. exists []. reflexivity.
Qed.

Lemma missing_setting_is_fatal_witness :
  fst (fst (Server.main Mem.minio 7 noBucket Mem.ready)) = Exited 1 /\
  snd (fst (Server.main Mem.minio 7 noBucket Mem.ready)) = Mem.ready.
Proof.
  destruct (missing_setting_is_fatal Mem.minio (Server.main Mem.minio)
              (snd (godotenv_Load noBucket)) 7 noBucket Mem.ready
              "MINIO_BUCKET") as (H1 & H2 & _).
  - left. split; reflexivity.
  - simpl. auto.
  - vm_compute. reflexivity.
  - split; [exact H1 | exact H2].
Defined.

(** X6.  In [src/server/main.go] a [.env] file that cannot be loaded is not
    fatal: the run is the run of the same process with an empty [.env] file,
    with the same outcome and the same outside world, preceded by one log
    line. *)
Theorem dotenv_failure_only_logged {W : Type} (minio : Minio W) (fuel : nat)
    (p : Process) (s : W) (e : error) :
  dotenv p = inl e ->
  Server.main minio fuel p s =
    (fst (fst (Server.main minio fuel (withEmptyDotenv p) s)),
     snd (fst (Server.main minio fuel (withEmptyDotenv p) s)),
     EvLog "No .env file found or failed to load it"
       :: snd (Server.main minio fuel (withEmptyDotenv p) s)).
Proof.
  intros He. unfold Server.main, godotenv_Load, withEmptyDotenv.
  rewrite He. cbn [dotenv environ].
  replace (environ p ∪ ∅) with (environ p)
    by (symmetry; apply map_union_empty).
  set (env := environ p).
  destruct (String.eqb (Getenv env "MINIO_ENDPOINT") "" ||
            String.eqb (Getenv env "MINIO_ACCESS_KEY") "" ||
            String.eqb (Getenv env "MINIO_SECRET_KEY") "" ||
            String.eqb (Getenv env "MINIO_BUCKET") ""); [reflexivity |].
  destruct (connect minio fuel _ _ s) as [[[c |] s1] tr1]; [| reflexivity].
  destruct (Server.bucketLoop minio 10 0 c _ s1) as [[[|] s2] tr2];
    [| reflexivity].
  unfold listenAndServe. cbn [listen]. destruct (listen p); reflexivity.
Qed.

Lemma dotenv_failure_only_logged_witness :
  fst (fst (Server.main Mem.minio 2 aProcess Mem.ready)) = Serving served /\
  hd_error (snd (Server.main Mem.minio 2 aProcess Mem.ready))
    = Some (EvLog "No .env file found or failed to load it").
Proof.
  rewrite (dotenv_failure_only_logged Mem.minio 2 aProcess Mem.ready
             "open .env: no such file or directory" eq_refl).
  split; [vm_compute; reflexivity | reflexivity].
Defined.

(** X7.  In either program, once a run allowed [n] connection attempts is
    past the connection loop (it exited or it serves), allowing more
    attempts changes nothing: outcome, outside world and trace are the
    same. *)
Theorem outcome_stable_once_connected {W : Type} (minio : Minio W)
    (main : nat -> Process -> W -> Outcome * W * list Event)
    (n m : nat) (p : Process) (s : W) :
  main = Server.main minio \/ main = Part000.main minio ->
  fst (fst (main n p s)) <> Retrying ->
  (n <= m)%nat ->
  main m p s = main n p s.
Proof.
  intros Hmain Hout Hle.
  destruct Hmain as [-> | ->].
  - revert Hout. unfold Server.main.
    destruct (godotenv_Load p) as [err env].
    destruct (String.eqb (Getenv env "MINIO_ENDPOINT") "" ||
              String.eqb (Getenv env "MINIO_ACCESS_KEY") "" ||
              String.eqb (Getenv env "MINIO_SECRET_KEY") "" ||
              String.eqb (Getenv env "MINIO_BUCKET") ""); [reflexivity |].
    destruct (connect minio n _ _ s) as [[[c |] s1] tr1] eqn:E.
    + intros _. rewrite (connect_more minio n _ _ s s1 c tr1 E m Hle).
      reflexivity.
    + cbn [fst]. congruence.
  - revert Hout. unfold Part000.main.
    destruct (String.eqb (Getenv (environ p) "MINIO_ENDPOINT") "" ||
              String.eqb (Getenv (environ p) "MINIO_ACCESS_KEY") "" ||
              String.eqb (Getenv (environ p) "MINIO_SECRET_KEY") "" ||
              String.eqb (Getenv (environ p) "MINIO_BUCKET") "");
      [reflexivity |].
    destruct (connect minio n _ _ s) as [[[c |] s1] tr1] eqn:E.
    + intros _. rewrite (connect_more minio n _ _ s s1 c tr1 E m Hle).
      reflexivity.
    + cbn [fst]. congruence.
Qed.

Lemma outcome_stable_once_connected_witness :
  Part000.main Mem.minio 40 aProcess (Mem.slow 4 0 ∅)
  = Part000.main Mem.minio 5 aProcess (Mem.slow 4 0 ∅).
Proof.
  apply (outcome_stable_once_connected Mem.minio (Part000.main Mem.minio)
           5 40 aProcess (Mem.slow 4 0 ∅)).
  - right. reflexivity.
  - vm_compute. discriminate.
  - lia.
Defined.

(** ** The events of a run, piece by piece *)

Lemma none_not_In (f : Event -> bool) (tr : list Event) (ev : Event) :
  none f tr -> f ev = true -> ~ In ev tr.
Proof.
  unfold none. rewrite forallb_forall. intros H Hev Hin.
  specialize (H ev Hin). rewrite Hev in H. discriminate.
Qed.

Lemma connectRounds_connecting (endpoint : string) (opts : Options)
    (es : list error) :
  connecting (flat_map (connectRound endpoint opts) es).
Proof. induction es as [| e es IH]; [reflexivity | exact IH]. Qed.

Lemma connectRounds_news (endpoint : string) (opts : Options)
    (es : list error) (ep : string) (o : Options) (r : option error) :
  In (EvNew ep o r) (flat_map (connectRound endpoint opts) es) ->
  ep = endpoint /\ o = opts.
Proof.
  induction es as [| e es IH]; simpl; [contradiction |].
  intros [H | [H | [H | H]]]; try discriminate; [| exact (IH H)].
  inversion H. auto.
Qed.

Lemma connectRounds_counts (endpoint : string) (opts : Options)
    (es : list error) :
  slept (flat_map (connectRound endpoint opts) es)
    = 2 * Second * Z.of_nat (length es) /\
  length (failedNews (flat_map (connectRound endpoint opts) es)) = length es.
Proof.
  induction es as [| e es [IH1 IH2]]; [split; reflexivity |].
  cbn [flat_map connectRound app slept fold_right failedNews List.filter
       isFailedNew length].
  fold (slept (flat_map (connectRound endpoint opts) es)).
  fold (failedNews (flat_map (connectRound endpoint opts) es)).
  rewrite IH1, IH2. split; [lia | reflexivity].
Qed.

Lemma retryRounds_counts (b : string) (es : list error) (i : Z) :
  slept (retryRounds b i es) = 2 * Second * Z.of_nat (length es) /\
  failedNews (retryRounds b i es) = [] /\
  (forall ep o r, ~ In (EvNew ep o r) (retryRounds b i es)).
Proof.
  revert i. induction es as [| e es IH]; intros i.
  - repeat split; auto.
  - destruct (IH (i + 1)) as (IH1 & IH2 & IH3).
    cbn [retryRounds app slept fold_right failedNews List.filter isFailedNew
         length].
    fold (slept (retryRounds b (i + 1) es)).
    fold (failedNews (retryRounds b (i + 1) es)).
    rewrite IH1, IH2. repeat split; [lia |].
    intros ep o r [H | [H | [H | H]]]; try discriminate. exact (IH3 _ _ _ H).
Qed.

Lemma slept_app (a b : list Event) : slept (a ++ b) = slept a + slept b.
Proof.
  unfold slept. induction a as [| ev a IH]; simpl; [reflexivity |].
  rewrite IH. destruct ev; lia.
Qed.

Lemma failedNews_app (a b : list Event) :
  failedNews (a ++ b) = failedNews a ++ failedNews b.
Proof. unfold failedNews. apply List.filter_app. Qed.

Lemma quiet_facts (p : Process) (g : Globals) (b : string) (ok : bool)
    (post : list Event) (msg : string) :
  quiet (dotenvLog p) /\
  quiet (snd (listenAndServe p g)) /\
  quiet (Fatal msg) /\
  (BucketEnd b ok post -> quiet post).
Proof.
  unfold quiet, dotenvLog, listenAndServe.
  split; [| split; [| split]].
  - destruct (dotenv p); simpl; repeat split; auto;
      intros ? ? ? H; decompose [or] H; try discriminate; contradiction.
  - destruct (listen p); simpl; repeat split; auto;
      intros ? ? ? H; decompose [or] H; try discriminate; contradiction.
  - simpl. repeat split; auto.
    intros ? ? ? H; decompose [or] H; try discriminate; contradiction.
  - intros Hend. destruct Hend; simpl; repeat split; auto;
      intros ? ? ? H; decompose [or] H; try discriminate; contradiction.
Qed.

Section BothPrograms.
Context {W : Type}.
Variable minio : Minio W.

(** Either program runs as [Execution] says, after nothing or after the log
    line about the [.env] file. *)
Lemma main_execution
    (main : nat -> Process -> W -> Outcome * W * list Event)
    (fuel : nat) (p : Process) (s : W) :
  main = Server.main minio \/ main = Part000.main minio ->
  exists bounded env pre,
    (pre = [] \/ pre = [EvLog "No .env file found or failed to load it"]) /\
    Execution bounded p env pre (fst (fst (main fuel p s)))
      (snd (main fuel p s)).
Proof.
  intros [-> | ->].
  - exists true, (snd (godotenv_Load p)), (dotenvLog p). split.
    + unfold dotenvLog. destruct (dotenv p); auto.
    + apply Server_main_execution.
  - exists false, (environ p), []. split; [auto |].
    apply Part000_main_execution.
Qed.

End BothPrograms.

(** ** Sleeping *)

Lemma phase_slept (bounded : bool) (b : string) (ok : bool)
    (phase : list Event) :
  BucketPhase bounded b ok phase ->
  slept phase =
    2 * Second *
    Z.of_nat (if bounded then length (failedChecks phase) else 0%nat) /\
  failedNews phase = [].
Proof.
  intros H. destruct H as [es ok post Hlen Hb Hend | es e Hb Hlen Hl | e Hb].
  - destruct (quiet_facts aProcess served b ok post "") as (_ & _ & _ & Hq).
    destruct (Hq Hend) as (Q1 & Q2 & Q3 & _).
    destruct (retryRounds_counts b es 0) as (R1 & R2 & _).
    destruct (retryRounds_facts b es 0) as (R3 & _).
    rewrite slept_app, failedNews_app, failedChecks_app, Q1, Q2, Q3, R1, R2, R3.
    rewrite app_nil_r. split; [| reflexivity].
    destruct bounded; [lia |]. rewrite (Hb eq_refl). reflexivity.
  - subst bounded.
    destruct (retryRounds_counts b es 0) as (R1 & R2 & _).
    destruct (retryRounds_facts b es 0) as (R3 & _).
    rewrite slept_app, failedNews_app, failedChecks_app, R1, R2, R3.
    simpl. rewrite app_nil_r. split; [lia | reflexivity].
  - subst bounded. split; reflexivity.
Qed.

Lemma execution_slept (bounded : bool) (p : Process)
    (env : gmap string string) (pre : list Event) (out : Outcome)
    (tr : list Event) :
  quiet pre ->
  Execution bounded p env pre out tr ->
  slept tr =
    2 * Second *
    Z.of_nat (length (failedNews tr) +
              if bounded then length (failedChecks tr) else 0%nat).
Proof.
  intros (P1 & P2 & P3 & _) H.
  destruct H as [Hk | es Hcfg | es ok phase Hcfg Hph].
  - rewrite slept_app, failedNews_app, failedChecks_app, P1, P2, P3.
    simpl. destruct bounded; reflexivity.
  - destruct (connectRounds_counts (endpointOf env) (optionsOf env) es)
      as [C1 C2].
    destruct (connecting_checks _
                (connectRounds_connecting (endpointOf env) (optionsOf env) es))
      as [C3 _].
    rewrite slept_app, failedNews_app, failedChecks_app, P1, P2, P3, C1, C3.
    rewrite ?length_app, ?C2. simpl. destruct bounded; lia.
  - destruct (connectRounds_counts (endpointOf env) (optionsOf env) es)
      as [C1 C2].
    destruct (connecting_checks _
                (connectRounds_connecting (endpointOf env) (optionsOf env) es))
      as [C3 _].
    destruct (phase_slept bounded _ ok phase Hph) as [F1 F2].
    assert (Ht : quiet (if ok then snd (listenAndServe p (globalsOf env))
                        else [])).
    { destruct ok; [apply (quiet_facts p (globalsOf env) "" true [] "") |].
      repeat split; auto. }
    destruct Ht as (T1 & T2 & T3 & _).
    rewrite !slept_app, !failedNews_app, !failedChecks_app.
    rewrite P1, P2, P3, C1, C3, F1, F2, T1, T2, T3.
    rewrite ?length_app, ?C2. simpl. rewrite ?app_nil_r.
    destruct bounded; lia.
Qed.

(** X8.  The only sleeps of a run are the two seconds after each failed
    attempt.  In [src/server/main.go] the time slept is two seconds for every
    failed client construction and for every failed bucket check (the tenth
    included, before the exit); in [src/unnamed/part_000] it is two seconds
    for every failed client construction, and a failed bucket check is not
    slept on. *)
Theorem two_seconds_per_failed_attempt {W : Type} (minio : Minio W)
    (fuel : nat) (p : Process) (s : W) :
  slept (snd (Server.main minio fuel p s)) =
    2 * Second *
    Z.of_nat (length (failedNews (snd (Server.main minio fuel p s))) +
              length (failedChecks (snd (Server.main minio fuel p s)))) /\
  slept (snd (Part000.main minio fuel p s)) =
    2 * Second *
    Z.of_nat (length (failedNews (snd (Part000.main minio fuel p s)))).
Proof.
  split.
  - apply (execution_slept true p (snd (godotenv_Load p)) (dotenvLog p)
             (fst (fst (Server.main minio fuel p s)))).
    + apply (quiet_facts p served "" true [] "").
    + apply Server_main_execution.
  - rewrite (execution_slept false p (environ p) []
               (fst (fst (Part000.main minio fuel p s)))
               (snd (Part000.main minio fuel p s))).
    + rewrite Nat.add_0_r. reflexivity.
    + repeat split; auto.
    + apply Part000_main_execution.
Qed.

(** Two refused constructions and ten refused checks: 24 seconds. *)
Example slept_before_giving_up :
  slept (snd (Server.main Mem.minio 3 aProcess (Mem.slow 2 10 ∅)))
  = 24 * Second.
Proof. vm_compute. reflexivity. Qed.

(** ** Bucket creation *)

Lemma pre_not_In (pre : list Event) (ev : Event) :
  pre = [] \/ pre = [EvLog "No .env file found or failed to load it"] ->
  (forall m, ev <> EvLog m) ->
  ~ In ev pre.
Proof.
  intros [-> | ->] Hev; simpl; [tauto |].
  intros [H | []]. exact (Hev _ (eq_sym H)).
Qed.

Lemma pre_connecting (pre : list Event) :
  pre = [] \/ pre = [EvLog "No .env file found or failed to load it"] ->
  connecting pre.
Proof. intros [-> | ->]; reflexivity. Qed.

Lemma execution_makeBucket (bounded : bool) (p : Process)
    (env : gmap string string) (pre : list Event) (out : Outcome)
    (tr : list Event) (b : string) (r : option error) :
  pre = [] \/ pre = [EvLog "No .env file found or failed to load it"] ->
  Execution bounded p env pre out tr ->
  In (EvMakeBucket b r) tr ->
  b = bucketOf env /\
  exists before after,
    tr = before ++ [EvBucketExists b (inr false); EvMakeBucket b r] ++ after /\
    none isMakeBucket before /\
    none isMakeBucket after /\
    match r with
    | None =>
        out = fst (listenAndServe p (globalsOf env)) /\
        after = EvLog ("Created bucket: " +:+ b)
                  :: snd (listenAndServe p (globalsOf env))
    | Some e =>
        out = Exited 1 /\ after = Fatal ("MakeBucket error: " +:+ e)
    end.
Proof.
  intros Hpre H Hin.
  assert (Hp : ~ In (EvMakeBucket b r) pre)
    by (apply pre_not_In; [exact Hpre | discriminate]).
  assert (Hpn : none isMakeBucket pre).
  { apply connecting_none; [| apply pre_connecting; exact Hpre].
    intros ev; destruct ev; simpl; congruence. }
  assert (Hrn : forall es,
             none isMakeBucket
               (flat_map (connectRound (endpointOf env) (optionsOf env)) es)).
  { intros es. apply connecting_none; [| apply connectRounds_connecting].
    intros ev; destruct ev; simpl; congruence. }
  destruct H as [Hk | es Hcfg | es ok phase Hcfg Hph].
  - exfalso. apply in_app_or in Hin as [Hin | Hin]; [exact (Hp Hin) |].
    simpl in Hin. decompose [or] Hin; try discriminate; contradiction.
  - exfalso. apply in_app_or in Hin as [Hin | Hin]; [exact (Hp Hin) |].
    exact (none_not_In _ _ (EvMakeBucket b r) (Hrn es) eq_refl Hin).
  - apply in_app_or in Hin as [Hin | Hin]; [exfalso; exact (Hp Hin) |].
    apply in_app_or in Hin as [Hin | Hin];
      [exfalso;
       exact (none_not_In _ _ (EvMakeBucket b r) (Hrn es) eq_refl Hin) |].
    apply in_app_or in Hin as [Hin | Hin];
      [exfalso; simpl in Hin; decompose [or] Hin; try discriminate;
       contradiction |].
    apply in_app_or in Hin as [Hin | Hin].
    2: { exfalso. destruct ok; [| exact Hin].
         exact (none_not_In _ _ (EvMakeBucket b r)
                  (proj1 (serve_tail p _)) eq_refl Hin). }
    destruct Hph as [es2 ok post Hlen Hb Hend | es2 e Hb Hlen Hl | e Hb].
    + destruct (retryRounds_facts (bucketOf env) es2 0)
        as (_ & _ & Rm & _).
      apply in_app_or in Hin as [Hin | Hin];
        [exfalso; exact (none_not_In _ _ (EvMakeBucket b r) Rm eq_refl Hin) |].
      assert (Hbn : none isMakeBucket
                      (pre ++
                       flat_map (connectRound (endpointOf env) (optionsOf env))
                         es ++
                       [EvNew (endpointOf env) (optionsOf env) None;
                        EvLog "Connected to MinIO"] ++
                       retryRounds (bucketOf env) 0 es2)).
      { apply none_app. split; [exact Hpn |].
        apply none_app. split; [apply Hrn |].
        apply none_app. split; [reflexivity | exact Rm]. }
      destruct Hend as [| | e]; simpl in Hin;
        decompose [or] Hin; try discriminate; try contradiction.
      * match goal with H : EvMakeBucket _ _ = _ |- _ => inversion H end.
        subst. split; [reflexivity |].
        exists (pre ++
                flat_map (connectRound (endpointOf env) (optionsOf env)) es ++
                [EvNew (endpointOf env) (optionsOf env) None;
                 EvLog "Connected to MinIO"] ++
                retryRounds (bucketOf env) 0 es2).
        exists (EvLog ("Created bucket: " +:+ bucketOf env)
                  :: snd (listenAndServe p (globalsOf env))).
        split; [rewrite <- ?app_assoc; reflexivity |].
        split; [exact Hbn |]. split; [| split; reflexivity].
        apply (none_app isMakeBucket [EvLog _]). split; [reflexivity |].
        apply serve_tail.
      * match goal with H : EvMakeBucket _ _ = _ |- _ => inversion H end.
        subst. split; [reflexivity |].
        exists (pre ++
                flat_map (connectRound (endpointOf env) (optionsOf env)) es ++
                [EvNew (endpointOf env) (optionsOf env) None;
                 EvLog "Connected to MinIO"] ++
                retryRounds (bucketOf env) 0 es2).
        exists (Fatal ("MakeBucket error: " +:+ e)).
        split; [rewrite app_nil_r, <- ?app_assoc; reflexivity |].
        split; [exact Hbn |]. split; [reflexivity | split; reflexivity].
    + exfalso. apply in_app_or in Hin as [Hin | Hin].
      * destruct (retryRounds_facts (bucketOf env) es2 0)
          as (_ & _ & Rm & _).
        exact (none_not_In _ _ (EvMakeBucket b r) Rm eq_refl Hin).
      * simpl in Hin. decompose [or] Hin; try discriminate; contradiction.
    + exfalso. simpl in Hin.
      decompose [or] Hin; try discriminate; contradiction.
Qed.

(** X9.  In either program a [MakeBucket] call happens at most once in a run
    and only directly after a bucket check that reported the bucket missing.
    When it fails, the run ends there with the fatal message carrying its
    error; when it succeeds, the log line and the call of the listener
    follow, for the bucket that was created. *)
Theorem bucket_created_only_when_missing {W : Type} (minio : Minio W)
    (main : nat -> Process -> W -> Outcome * W * list Event)
    (fuel : nat) (p : Process) (s : W) (b : string) (r : option error) :
  main = Server.main minio \/ main = Part000.main minio ->
  In (EvMakeBucket b r) (snd (main fuel p s)) ->
  exists before after,
    snd (main fuel p s) =
      before ++ [EvBucketExists b (inr false); EvMakeBucket b r] ++ after /\
    none isMakeBucket before /\
    none isMakeBucket after /\
    match r with
    | None =>
        exists g,
          bucketName g = b /\
          fst (fst (main fuel p s)) = fst (listenAndServe p g) /\
          after = EvLog ("Created bucket: " +:+ b)
                    :: snd (listenAndServe p g)
    | Some e =>
        fst (fst (main fuel p s)) = Exited 1 /\
        after = Fatal ("MakeBucket error: " +:+ e)
    end.
Proof.
  intros Hmain Hin.
  destruct (main_execution minio main fuel p s Hmain)
    as (bounded & env & pre & Hpre & Hex).
  destruct (execution_makeBucket bounded p env pre _ _ b r Hpre Hex Hin)
    as (Hbk & before & after & Htr & Hb & Ha & Hr).
  exists before, after. repeat split; try assumption.
  destruct r as [e |]; [exact Hr |].
  destruct Hr as [Hout Hafter].
  exists (globalsOf env). split; [| split; assumption].
  rewrite Hbk. reflexivity.
Qed.

Lemma bucket_created_only_when_missing_witness :
  exists before after,
    snd (Part000.main Mem.minio 1 aProcess (Mem.slow 0 0 ∅)) =
      before ++ [EvBucketExists "files" (inr false);
                 EvMakeBucket "files" None] ++ after /\
    none isMakeBucket before /\ none isMakeBucket after.
Proof.
  destruct (bucket_created_only_when_missing Mem.minio
              (Part000.main Mem.minio) 1 aProcess (Mem.slow 0 0 ∅)
              "files" None) as (before & after & Htr & Hb & Ha & _).
  - right. reflexivity.
  - vm_compute. tauto.
  - exists before, after. auto.
Defined.

(** ** Client constructions *)

Lemma execution_news (bounded : bool) (p : Process)
    (env : gmap string string) (pre : list Event) (out : Outcome)
    (tr : list Event) (ep : string) (o : Options) (r : option error) :
  pre = [] \/ pre = [EvLog "No .env file found or failed to load it"] ->
  Execution bounded p env pre out tr ->
  In (EvNew ep o r) tr ->
  ep = endpointOf env /\ o = optionsOf env /\
  forall k, In k requiredVariables -> Getenv env k <> "".
Proof.
  intros Hpre H Hin.
  assert (Hp : ~ In (EvNew ep o r) pre)
    by (apply pre_not_In; [exact Hpre | discriminate]).
  destruct H as [Hk | es Hcfg | es ok phase Hcfg Hph].
  - exfalso. apply in_app_or in Hin as [Hin | Hin]; [exact (Hp Hin) |].
    simpl in Hin. decompose [or] Hin; try discriminate; contradiction.
  - apply in_app_or in Hin as [Hin | Hin]; [exfalso; exact (Hp Hin) |].
    destruct (connectRounds_news _ _ _ _ _ _ Hin). auto.
  - apply in_app_or in Hin as [Hin | Hin]; [exfalso; exact (Hp Hin) |].
    apply in_app_or in Hin as [Hin | Hin].
    { destruct (connectRounds_news _ _ _ _ _ _ Hin). auto. }
    apply in_app_or in Hin as [Hin | Hin].
    { simpl in Hin. destruct Hin as [Hin | [Hin | []]]; [| discriminate].
      inversion Hin. auto. }
    exfalso. apply in_app_or in Hin as [Hin | Hin].
    + destruct Hph as [es2 ok post Hlen Hb Hend | es2 e Hb Hlen Hl | e Hb].
      * apply in_app_or in Hin as [Hin | Hin].
        { exact (proj2 (proj2 (retryRounds_counts _ es2 0)) _ _ _ Hin). }
        destruct Hend; simpl in Hin;
          decompose [or] Hin; try discriminate; contradiction.
      * apply in_app_or in Hin as [Hin | Hin].
        { exact (proj2 (proj2 (retryRounds_counts _ es2 0)) _ _ _ Hin). }
        simpl in Hin. decompose [or] Hin; try discriminate; contradiction.
      * simpl in Hin. decompose [or] Hin; try discriminate; contradiction.
    + destruct ok; [| exact Hin].
      unfold listenAndServe in Hin. destruct (listen p); simpl in Hin;
        decompose [or] Hin; try discriminate; contradiction.
Qed.

(** X10.  In either program every client construction of a run, however often
    it is repeated, is made with the same arguments: a non-empty endpoint,
    non-empty access and secret keys, an empty session token, and without
    TLS. *)
Theorem constructions_plain_and_alike {W : Type} (minio : Minio W)
    (main : nat -> Process -> W -> Outcome * W * list Event)
    (fuel : nat) (p : Process) (s : W)
    (ep : string) (o : Options) (r : option error) :
  main = Server.main minio \/ main = Part000.main minio ->
  In (EvNew ep o r) (snd (main fuel p s)) ->
  Secure o = false /\
  SessionToken (Creds o) = "" /\
  ep <> "" /\
  AccessKeyID (Creds o) <> "" /\
  SecretAccessKey (Creds o) <> "" /\
  forall ep' o' r',
    In (EvNew ep' o' r') (snd (main fuel p s)) -> ep' = ep /\ o' = o.
Proof.
  intros Hmain Hin.
  destruct (main_execution minio main fuel p s Hmain)
    as (bounded & env & pre & Hpre & Hex).
  destruct (execution_news bounded p env pre _ _ ep o r Hpre Hex Hin)
    as (-> & -> & Hcfg).
  unfold endpointOf, optionsOf, staticOptions, NewStaticV4,
    requiredVariables in *. simpl.
  repeat split; try (apply Hcfg; simpl; tauto).
  - destruct (execution_news bounded p env pre _ _ ep' o' r' Hpre Hex H)
      as (-> & _). reflexivity.
  - destruct (execution_news bounded p env pre _ _ ep' o' r' Hpre Hex H)
      as (_ & -> & _). reflexivity.
Qed.

Lemma constructions_plain_and_alike_witness :
  let tr := snd (Server.main Mem.minio 3 aProcess (Mem.slow 2 0 ∅)) in
  In (EvNew "minio:9000" (staticOptions "admin" "secret") None) tr /\
  Secure (staticOptions "admin" "secret") = false /\
  SessionToken (Creds (staticOptions "admin" "secret")) = "".
Proof.
  destruct (constructions_plain_and_alike Mem.minio (Server.main Mem.minio)
              3 aProcess (Mem.slow 2 0 ∅) "minio:9000"
              (staticOptions "admin" "secret") (Some Mem.refused))
    as (Hs & Ht & _).
  - left. reflexivity.
  - vm_compute. tauto.
  - split; [vm_compute; tauto | split; [exact Hs | exact Ht]].
Defined.

(** ** Exits *)

Lemma pieces_no_exit (pre : list Event) (endpoint : string) (opts : Options)
    (es : list error) :
  pre = [] \/ pre = [EvLog "No .env file found or failed to load it"] ->
  none isExit
    (pre ++ flat_map (connectRound endpoint opts) es ++
     [EvNew endpoint opts None; EvLog "Connected to MinIO"]).
Proof.
  intros Hpre.
  assert (Hf : forall ev, isConnectEvent ev = true -> isExit ev = false)
    by (intros ev; destruct ev; simpl; congruence).
  apply none_app. split.
  - apply connecting_none; [exact Hf | apply pre_connecting; exact Hpre].
  - apply none_app. split; [| reflexivity].
    apply connecting_none; [exact Hf | apply connectRounds_connecting].
Qed.

Lemma execution_exit (bounded : bool) (p : Process)
    (env : gmap string string) (pre : list Event) (out : Outcome)
    (tr : list Event) :
  pre = [] \/ pre = [EvLog "No .env file found or failed to load it"] ->
  Execution bounded p env pre out tr ->
  (none isExit tr /\ forall c, out <> Exited c) \/
  (out = Exited 1 /\
   exists before msg, tr = before ++ Fatal msg /\ none isExit before).
Proof.
  intros Hpre H.
  destruct H as [Hk | es Hcfg | es ok phase Hcfg Hph].
  - right. split; [reflexivity |]. exists pre. eexists. split; [reflexivity |].
    apply connecting_none; [| apply pre_connecting; exact Hpre].
    intros ev; destruct ev; simpl; congruence.
  - left. split; [| discriminate].
    apply none_app. split;
      (apply connecting_none;
       [intros ev; destruct ev; simpl; congruence |]);
      [apply pre_connecting; exact Hpre | apply connectRounds_connecting].
  - pose proof (pieces_no_exit pre (endpointOf env) (optionsOf env) es Hpre)
      as Hhead.
    set (head := pre ++
                 flat_map (connectRound (endpointOf env) (optionsOf env)) es ++
                 [EvNew (endpointOf env) (optionsOf env) None;
                  EvLog "Connected to MinIO"]) in *.
    assert (Htr : forall rest,
               pre ++
               flat_map (connectRound (endpointOf env) (optionsOf env)) es ++
               [EvNew (endpointOf env) (optionsOf env) None;
                EvLog "Connected to MinIO"] ++ rest = head ++ rest).
    { intros rest. subst head. rewrite <- !app_assoc. reflexivity. }
    rewrite Htr. clear Htr.
    destruct Hph as [es2 ok post Hlen Hb Hend | es2 e Hb Hlen Hl | e Hb].
    + destruct (retryRounds_facts (bucketOf env) es2 0)
        as (_ & _ & _ & Re & _).
      destruct Hend as [| | e].
      * unfold listenAndServe. destruct (listen p) as [e |]; cbn [fst snd].
        -- right. split; [reflexivity |].
           exists (head ++ (retryRounds (bucketOf env) 0 es2 ++
                            [EvBucketExists (bucketOf env) (inr true);
                             EvLog ("Bucket already exists: " +:+
                                    bucketOf env)]) ++ serveEvents), e.
           split; [rewrite <- !app_assoc; reflexivity |].
           apply none_app. split; [exact Hhead |].
           apply none_app. split; [| reflexivity].
           apply none_app. split; [exact Re | reflexivity].
        -- left. split; [| discriminate].
           apply none_app. split; [exact Hhead |].
           apply none_app. split; [| reflexivity].
           apply none_app. split; [exact Re | reflexivity].
      * unfold listenAndServe. destruct (listen p) as [e |]; cbn [fst snd].
        -- right. split; [reflexivity |].
           exists (head ++ (retryRounds (bucketOf env) 0 es2 ++
                            [EvBucketExists (bucketOf env) (inr false);
                             EvMakeBucket (bucketOf env) None;
                             EvLog ("Created bucket: " +:+ bucketOf env)])
                        ++ serveEvents), e.
           split; [rewrite <- !app_assoc; reflexivity |].
           apply none_app. split; [exact Hhead |].
           apply none_app. split; [| reflexivity].
           apply none_app. split; [exact Re | reflexivity].
        -- left. split; [| discriminate].
           apply none_app. split; [exact Hhead |].
           apply none_app. split; [| reflexivity].
           apply none_app. split; [exact Re | reflexivity].
      * right. split; [reflexivity |].
        exists (head ++ retryRounds (bucketOf env) 0 es2 ++
                [EvBucketExists (bucketOf env) (inr false);
                 EvMakeBucket (bucketOf env) (Some e)]),
               ("MakeBucket error: " +:+ e).
        split; [rewrite app_nil_r, <- !app_assoc; reflexivity |].
        apply none_app. split; [exact Hhead |].
        apply none_app. split; [exact Re | reflexivity].
    + destruct (retryRounds_facts (bucketOf env) es2 0)
        as (_ & _ & _ & Re & _).
      right. split; [reflexivity |].
      exists (head ++ retryRounds (bucketOf env) 0 es2),
             ("Failed to connect to MinIO after 10 attempts: " +:+ e).
      split; [rewrite app_nil_r, <- !app_assoc; reflexivity |].
      apply none_app. split; [exact Hhead | exact Re].
    + right. split; [reflexivity |].
      exists (head ++ [EvBucketExists (bucketOf env) (inl e)]),
             ("BucketExists error: " +:+ e).
      split; [rewrite app_nil_r, <- !app_assoc; reflexivity |].
      apply none_app. split; [exact Hhead | reflexivity].
Qed.

(** X11.  In either program the code of an exit is always 1, an exit is the
    last event of its run and it directly follows the log line with the
    reason; a run whose outcome is an exit has that exit in its trace, and a
    run that is retrying or serving has none. *)
Theorem exit_is_logged_and_last {W : Type} (minio : Minio W)
    (main : nat -> Process -> W -> Outcome * W * list Event)
    (fuel : nat) (p : Process) (s : W) :
  main = Server.main minio \/ main = Part000.main minio ->
  let out := fst (fst (main fuel p s)) in
  let tr := snd (main fuel p s) in
  (forall c, In (EvExit c) tr ->
     c = 1 /\ out = Exited 1 /\
     exists before msg,
       tr = before ++ [EvLog msg; EvExit 1] /\ none isExit before) /\
  (forall c, out = Exited c -> c = 1 /\ last tr = Some (EvExit 1)).
Proof.
  intros Hmain out tr.
  destruct (main_execution minio main fuel p s Hmain)
    as (bounded & env & pre & Hpre & Hex).
  fold out tr in Hex.
  destruct (execution_exit bounded p env pre out tr Hpre Hex)
    as [[Hnone Hout] | (Hout & before & msg & Htr & Hb)].
  - split.
    + intros c Hin. exfalso.
      exact (none_not_In isExit tr (EvExit c) Hnone eq_refl Hin).
    + intros c Hc. exfalso. exact (Hout c Hc).
  - split.
    + intros c Hin. rewrite Htr in Hin.
      apply in_app_or in Hin as [Hin | Hin].
      { exfalso. exact (none_not_In isExit before (EvExit c) Hb eq_refl Hin). }
      simpl in Hin. destruct Hin as [Hin | [Hin | []]]; [discriminate |].
      inversion Hin. split; [reflexivity |]. split; [exact Hout |].
      exists before, msg. split; [exact Htr | exact Hb].
    + intros c Hc. rewrite Hout in Hc. inversion Hc. split; [reflexivity |].
      rewrite Htr. unfold Fatal.
      replace (before ++ [EvLog msg; EvExit 1])
        with ((before ++ [EvLog msg]) ++ [EvExit 1])
        by (rewrite <- app_assoc; reflexivity).
      apply last_snoc.
Qed.

Lemma exit_is_logged_and_last_witness :
  last (snd (Part000.main Mem.minio 1 aProcess (Mem.slow 0 1 ∅)))
  = Some (EvExit 1).
Proof.
  destruct (exit_is_logged_and_last Mem.minio (Part000.main Mem.minio)
              1 aProcess (Mem.slow 0 1 ∅)) as [_ H].
  - right. reflexivity.
  - destruct (H 1) as [_ Hl]; [vm_compute; reflexivity | exact Hl].
Defined.

(** ** The single bucket check of [src/unnamed/part_000] *)

(** X12.  [src/unnamed/part_000] asks at most once whether the bucket exists.
    When that one check fails, the run ends at once: the check is followed
    only by the fatal message carrying its error and the exit; there is no
    retry and no sleep after it, and the outcome is the exit with code 1. *)
Theorem part000_checks_once {W : Type} (minio : Minio W) (fuel : nat)
    (p : Process) (s : W) :
  let out := fst (fst (Part000.main minio fuel p s)) in
  let tr := snd (Part000.main minio fuel p s) in
  (length (checks tr) <= 1)%nat /\
  forall b e,
    In (EvBucketExists b (inl e)) tr ->
    out = Exited 1 /\
    exists before,
      tr = before ++ EvBucketExists b (inl e)
                  :: Fatal ("BucketExists error: " +:+ e) /\
      checks before = [].
Proof.
  intros out tr. subst out tr.
  pose proof (Part000_main_execution minio fuel p s) as H.
  revert H.
  generalize (fst (fst (Part000.main minio fuel p s)))
             (snd (Part000.main minio fuel p s)).
  intros out tr H.
  assert (Hrounds : forall es,
             connecting
               (flat_map (connectRound (endpointOf (environ p))
                            (optionsOf (environ p))) es))
    by (intros es; apply connectRounds_connecting).
  inversion H as [Hk Ho Ht | es Hcfg Ho Ht | es ok phase Hcfg Hph Ho Ht];
    subst; clear H.
  - simpl. split; [lia |]. intros b e Hin. exfalso.
    decompose [or] Hin; try discriminate; contradiction.
  - simpl. destruct (connecting_checks _ (Hrounds es)) as [_ Hc].
    rewrite Hc. split; [simpl; lia |]. intros b e Hin. exfalso.
    revert Hin. apply connecting_not_In; [apply Hrounds | reflexivity].
  - simpl app.
    destruct (connecting_checks _ (Hrounds es)) as [_ Hc].
    assert (Htail : checks (if ok
                            then snd (listenAndServe p (globalsOf (environ p)))
                            else []) = [] /\
                    forall b r,
                      ~ In (EvBucketExists b r)
                          (if ok
                           then snd (listenAndServe p (globalsOf (environ p)))
                           else [])).
    { destruct ok; [| split; [reflexivity | intros b r []]].
      destruct (serve_tail p (globalsOf (environ p))) as (_ & Hn & _ & Hcs).
      split; assumption. }
    destruct Htail as [Tc Tn].
    inversion Hph as [es2 ok' post Hlen Hb Hend | es2 e Hb Hlen Hl | e Hb];
      subst; try discriminate.
    + rewrite (Hb eq_refl) in *. simpl retryRounds. simpl app.
      destruct (BucketEnd_facts _ _ _ Hend) as (Pf & Pc & _).
      split.
      * rewrite checks_app, Hc. simpl.
        rewrite checks_app, Tc, app_nil_r, Pc. lia.
      * intros b e Hin. exfalso.
        apply in_app_or in Hin as [Hin | Hin].
        { revert Hin. apply connecting_not_In; [apply Hrounds | reflexivity]. }
        simpl in Hin. destruct Hin as [Hin | [Hin | Hin]]; try discriminate.
        apply in_app_or in Hin as [Hin | Hin]; [| exact (Tn _ _ Hin)].
        destruct Hend; simpl in Hin;
          decompose [or] Hin; try discriminate; contradiction.
    + split.
      * rewrite checks_app, Hc. simpl. lia.
      * intros b e0 Hin.
        apply in_app_or in Hin as [Hin | Hin].
        { exfalso. revert Hin.
          apply connecting_not_In; [apply Hrounds | reflexivity]. }
        simpl in Hin. decompose [or] Hin; try discriminate; try contradiction.
        match goal with
        | Heq : EvBucketExists _ _ = EvBucketExists _ _ |- _ =>
            inversion Heq; subst
        end.
        split; [reflexivity |].
        exists (flat_map (connectRound (endpointOf (environ p))
                            (optionsOf (environ p))) es ++
                [EvNew (endpointOf (environ p)) (optionsOf (environ p)) None;
                 EvLog "Connected to MinIO"]).
        split; [rewrite <- app_assoc; reflexivity |].
        rewrite checks_app, Hc. reflexivity.
Qed.

(** The service refuses the one check: one check in the trace, no sleep. *)
Example part000_gives_up_at_once :
  let tr := snd (Part000.main Mem.minio 1 aProcess (Mem.slow 0 1 ∅)) in
  fst (fst (Part000.main Mem.minio 1 aProcess (Mem.slow 0 1 ∅))) = Exited 1 /\
  length (checks tr) = 1%nat /\ slept tr = 0.
Proof. vm_compute. auto. Qed.

Lemma part000_checks_once_witness :
  fst (fst (Part000.main Mem.minio 1 aProcess (Mem.slow 0 1 ∅))) = Exited 1.
Proof.
  destruct (part000_checks_once Mem.minio 1 aProcess (Mem.slow 0 1 ∅))
    as [_ H].
  destruct (H "files" Mem.refused) as [Ho _].
  - vm_compute. tauto.
  - exact Ho.
Defined.

(** ** What a request asks of the backend *)

(** X13.  Whatever the globals and the backend, a backend call made for a
    request is the operation of its path on its own non-empty key:
    [PutObject] with size -1 for [/upload], [GetObject] for [/download], the
    recursive [ListObjects] for [/list].  No request checks or creates a
    bucket or constructs a client, and only [/upload] writes. *)
Theorem requests_call_their_own_operation {W : Type} (minio : Minio W)
    (g : Globals) (r : Request) (s : W) (ev : Event) :
  In ev (calls (serveRequest minio g r s)) ->
  callFor r ev.
Proof.
  assert (Hcalls : calls (serveRequest minio g r s)
                   = calls (dispatch minio g newResponse r s)).
  { unfold serveRequest.
    destruct (completion (dispatch minio g newResponse r s)); reflexivity. }
  rewrite Hcalls. clear Hcalls. unfold dispatch.
  destruct (String.eqb_spec (Path r) "/upload") as [Hu | Hu].
  { unfold uploadHandler.
    destruct (String.eqb_spec (Values_Get (Query r) "key") "") as [Hk | Hk];
      [intros [] |].
    destruct (minioClient g) as [c |]; [| intros []].
    destruct (PutObject minio c (bucketName g) (Values_Get (Query r) "key")
                (Body r) (-1) s) as [[e |] s1];
      intros [<- | []]; simpl; auto. }
  destruct (String.eqb_spec (Path r) "/download") as [Hd | Hd].
  { unfold downloadHandler.
    destruct (String.eqb_spec (Values_Get (Query r) "key") "") as [Hk | Hk];
      [intros [] |].
    destruct (minioClient g) as [c |]; [| intros []].
    destruct (GetObject minio c (bucketName g) (Values_Get (Query r) "key") s)
      as [[e | obj] s1];
      intros [<- | []]; simpl; auto. }
  destruct (String.eqb_spec (Path r) "/list") as [Hl | Hl].
  { unfold listHandler.
    destruct (minioClient g) as [c |]; [| intros []].
    destruct (ListObjects minio c (bucketName g) true s) as [objs s1].
    intros [<- | []]; simpl; auto. }
  intros [].
Qed.

Lemma requests_call_their_own_operation_witness :
  callFor (request "/download" "nope" (whole []))
          (EvGetObject "files" "nope" None).
Proof.
  apply (requests_call_their_own_operation Mem.minio served
           (request "/download" "nope" (whole [])) Mem.ready).
  vm_compute. tauto.
Defined.
